(** * velour/irc: message framing, parsing and serialisation

    A shallow embedding of [irc/msg.go]: the wire reader [readMsgData] with
    its resynchronisation helper [junk], the parser [Parse] with its helper
    [splitString], and the serialiser [Message.RawString].

    Go strings are byte sequences and are modelled by [string] (a sequence of
    8-bit [ascii] values); a [[]byte] is a [list byte].  A Go [int] is a [Z];
    the one counter that is incremented in a loop wraps at 64 bits.  A run
    that Go would abort with a run-time panic is a [Panic] of the [exec]
    monad. *)

From Stdlib Require Import String Ascii List ZArith Lia Bool Arith.
From Equations Require Import Equations.
Import ListNotations.

Local Open Scope Z_scope.
Local Open Scope list_scope.
Local Open Scope string_scope.

(** * The program *)

(** ** Bytes, integers and run-time panics *)

Definition byte := ascii.
Bind Scope char_scope with byte.

Definition NUL : byte := "000"%char.
Definition LF : byte := "010"%char.
Definition CR : byte := "013"%char.

(** Go's [int] on a 64-bit platform. *)
Definition int_min : Z := - 2 ^ 63.
Definition int_max : Z := 2 ^ 63 - 1.

Definition wrap_int (z : Z) : Z := (z - int_min) mod 2 ^ 64 + int_min.

Definition int_add (a b : Z) : Z := wrap_int (a + b).

(** [len(s)] of a string and of a byte slice. *)
Definition len (s : string) : Z := Z.of_nat (String.length s).
Definition len_bytes (b : list byte) : Z := Z.of_nat (List.length b).

Inductive runtimeError : Type :=
| IndexOutOfRange (i n : Z)
| SliceOutOfRange (i n : Z).

Inductive exec (A : Type) : Type :=
| Ret (a : A)
| Panic (why : runtimeError).

Arguments Ret {A} a.
Arguments Panic {A} why.

Definition bind {A B : Type} (c : exec A) (k : A -> exec B) : exec B :=
  match c with
  | Ret a => k a
  | Panic why => Panic why
  end.

Notation "x <- c ;; k" := (bind c (fun x => k))
  (at level 61, c at next level, right associativity).
Notation "' p <- c ;; k" := (bind c (fun x => let p := x in k))
  (at level 61, p pattern, c at next level, right associativity).

(** [s[i]]: panics when [i] is not below [len(s)]. *)
Definition byte_at (s : string) (i : nat) : exec byte :=
  match String.get i s with
  | Some c => Ret c
  | None => Panic (IndexOutOfRange (Z.of_nat i) (len s))
  end.

(** [s[i:]]: panics when [i] is above [len(s)]. *)
Definition slice_from (s : string) (i : nat) : exec string :=
  if (i <=? String.length s)%nat
  then Ret (String.substring i (String.length s - i) s)
  else Panic (SliceOutOfRange (Z.of_nat i) (len s)).

(** [parts[i]] and [parts[i:]] on a slice of strings. *)
Definition part_at (parts : list string) (i : nat) : exec string :=
  match nth_error parts i with
  | Some p => Ret p
  | None => Panic (IndexOutOfRange (Z.of_nat i) (Z.of_nat (List.length parts)))
  end.

Definition parts_from (parts : list string) (i : nat) : exec (list string) :=
  if (i <=? List.length parts)%nat
  then Ret (skipn i parts)
  else Panic (SliceOutOfRange (Z.of_nat i) (Z.of_nat (List.length parts))).

(** ** The part of Go's [strings] package the program calls

    Cut sets and separators are the one-byte strings [" "], ["!"], ["@"] and
    the newline at every call site, so bytes and characters coincide. *)
Module strings.

Fixpoint mem_byte (c : byte) (cutset : string) : bool :=
  match cutset with
  | EmptyString => false
  | String d rest => Ascii.eqb c d || mem_byte c rest
  end.

Fixpoint drop (n : nat) (s : string) : string :=
  match n, s with
  | O, _ => s
  | S n', String _ rest => drop n' rest
  | S _, EmptyString => EmptyString
  end.

(** The text before and after the first occurrence of [sep], if any. *)
Fixpoint cut (sep s : string) {struct s} : option (string * string) :=
  if String.prefix sep s then Some (EmptyString, drop (String.length sep) s)
  else match s with
       | EmptyString => None
       | String c rest =>
           match cut sep rest with
           | Some (h, t) => Some (String c h, t)
           | None => None
           end
       end.

(** [strings.SplitN(s, sep, n)] for a positive count [n] and a non-empty
    separator: at most [n] pieces, the last one the unsplit remainder. *)
Fixpoint SplitN (s sep : string) (n : nat) : list string :=
  match n with
  | O => []
  | S O => [s]
  | S n' =>
      match cut sep s with
      | Some (h, t) => h :: SplitN t sep n'
      | None => [s]
      end
  end.

(** [strings.Join(elems, sep)]. *)
Definition Join (elems : list string) (sep : string) : string :=
  String.concat sep elems.

(** [strings.TrimLeft(s, cutset)]. *)
Fixpoint TrimLeft (s cutset : string) : string :=
  match s with
  | EmptyString => EmptyString
  | String c rest => if mem_byte c cutset then TrimLeft rest cutset else s
  end.

(** [strings.TrimRight(s, cutset)]. *)
Fixpoint TrimRight (s cutset : string) : string :=
  match s with
  | EmptyString => EmptyString
  | String c rest =>
      match TrimRight rest cutset with
      | EmptyString => if mem_byte c cutset then EmptyString else String c EmptyString
      | kept => String c kept
      end
  end.

End strings.

(** ** Constants and errors of the package *)

Definition MaxBytes : Z := 512.

Definition delimiter : string := String CR (String LF EmptyString).

Definition newline : string := String LF EmptyString.

(** The values of Go's [error] interface that the package produces or passes
    on: [io.EOF], an [errors.New] value, a [MsgTooLong], and any other error
    of the byte source. *)
Inductive error : Type :=
| io_EOF
| errorString (text : string)
| MsgTooLong (Message : string) (NTrunc : Z)
| sourceFailure (text : string).

Definition unexpected (what : string) : error :=
  errorString ("unexpected " ++ what ++ " in message stream").

(** A [Message].  Go's [Command] is a string type whose [String] method is
    the identity, so the field holds a [string]. *)
Record Message : Type := mkMessage {
  Raw : string;
  Origin : string;
  User : string;
  Host : string;
  Command : string;
  Arguments : list string
}.

Definition nonempty (s : string) : bool :=
  match s with
  | EmptyString => false
  | String _ _ => true
  end.

(** ** Serialisation: [Message.RawString] *)

(** The loop over [m.Arguments]: [n] is [len(m.Arguments)], [i] the index. *)
Fixpoint appendArgs (raw : string) (n i : Z) (args : list string) : string :=
  match args with
  | [] => raw
  | a :: rest =>
      appendArgs (if (i =? n - 1)%Z then raw ++ (" :" ++ a) else raw ++ (" " ++ a))
                 n (i + 1) rest
  end.

(** The text built from the fields when [Raw] is empty. *)
Definition buildRaw (m : Message) : string :=
  let raw := "" in
  let raw :=
    if nonempty (Origin m) then
      let raw := raw ++ (":" ++ Origin m) in
      let raw :=
        if nonempty (User m) then raw ++ ("!" ++ User m ++ "@" ++ Host m)
        else raw in
      raw ++ " "
    else raw in
  let raw := raw ++ Command m in
  appendArgs raw (Z.of_nat (List.length (Arguments m))) 0 (Arguments m).

(** The value of [raw] at the label [out]. *)
Definition candidate (m : Message) : string :=
  if nonempty (Raw m) then Raw m else buildRaw m.

(** [len(raw)] is above 510 where 510 is subtracted from it, so that
    difference does not wrap. *)
Definition RawString (m : Message) : string * option error :=
  let raw := candidate m in
  if (len raw >? MaxBytes - len delimiter)%Z
  then ("", Some (MsgTooLong raw (len raw - (MaxBytes - len delimiter))))
  else (strings.TrimRight raw newline, None).

Import strings.

(** ** The byte source

    [in.ReadByte()] hands out the pending bytes in order; when none is left
    it reports [closing], which is [io.EOF] for a source that ends and the
    failure of a source that breaks.  The report is repeated on later
    calls. *)
Record Reader : Type := mkReader {
  pending : list byte;
  closing : error
}.

Definition ReadByte (r : Reader) : (byte * option error) * Reader :=
  match pending r with
  | [] => ((NUL, Some (closing r)), r)
  | c :: rest => ((c, None), mkReader rest (closing r))
  end.

(** [delimiter[i]] for the constant indices 0 and 1. *)
Definition delimiter_at (i : nat) : byte :=
  match String.get i delimiter with
  | Some c => c
  | None => NUL
  end.

(** ** Framing: [junk] and [readMsgData] *)

(** The loop of [junk], with its variables [last] and [n]; the result is the
    pair returned and the bytes left in the source. *)
Fixpoint junkLoop (closing : error) (last : byte) (n : Z) (pending : list byte)
  : (Z * option error) * list byte :=
  match pending with
  | [] => ((n, Some closing), [])
  | c :: rest =>
      let n := int_add n 1 in
      if Ascii.eqb last (delimiter_at 0) && Ascii.eqb c (delimiter_at 1)
      then ((int_add n (-1), None), rest)
      else junkLoop closing c n rest
  end.

Definition junk (closing : error) (pending : list byte)
  : (Z * option error) * list byte :=
  junkLoop closing NUL 0 pending.

(** The loop of [readMsgData], with its variable [msg].  In the length-guard
    case [len(msg)] is at least 510, so the slice [msg[:len(msg)-1]] is in
    range. *)
Fixpoint readLoop (closing : error) (msg pending : list byte) {struct pending}
  : (string * option error) * list byte :=
  match pending with
  | [] =>
      match closing with
      | io_EOF =>
          if (len_bytes msg >? 0)%Z
          then (("", Some (unexpected "end of file")), [])
          else (("", Some io_EOF), [])
      | err => (("", Some err), [])
      end
  | c :: rest =>
      if Ascii.eqb c NUL then (("", Some (unexpected "null")), rest)
      else if Ascii.eqb c LF then readLoop closing msg rest
      else if Ascii.eqb c CR then
        match rest with
        | [] =>
            (("", Some match closing with
                       | io_EOF => unexpected "end of file"
                       | err => err
                       end), [])
        | c' :: rest' =>
            if negb (Ascii.eqb c' LF)
            then (("", Some (unexpected "carrage return")), rest')
            else if (len_bytes msg =? 0)%Z then readLoop closing msg rest'
            else ((string_of_list_ascii msg, None), rest')
        end
      else if (len_bytes msg >=? MaxBytes - len delimiter)%Z then
        let '((n, _), rest') := junk closing rest in
        (("", Some (MsgTooLong
                      (string_of_list_ascii (firstn (List.length msg - 1) msg))
                      (int_add n 1))), rest')
      else readLoop closing (msg ++ [c]) rest
  end.

Definition readMsgData (r : Reader) : (string * option error) * Reader :=
  let '(res, rest) := readLoop (closing r) [] (pending r) in
  (res, mkReader rest (closing r)).

(** ** Parsing: [splitString] and [Parse] *)

Definition splitString (s delim : string) : exec (string * string) :=
  let parts := strings.SplitN s delim 2 in
  head <- part_at parts 0 ;;
  rest <- parts_from parts 1 ;;
  let cons := strings.Join rest delim in
  let cons := if String.eqb delim " " then strings.TrimLeft cons delim else cons in
  Ret (head, cons).

(** One round of the argument loop of [Parse]: the argument taken and the
    text left. *)
Definition argStep (data : string) : exec (string * string) :=
  c <- byte_at data 0 ;;
  if Ascii.eqb c ":" then
    arg <- slice_from data 1 ;;
    Ret (arg, "")
  else splitString data " ".

(** *** Lengths: what makes the argument loop terminate *)

Lemma drop_length (n : nat) (s : string) :
  String.length (drop n s) = (String.length s - n)%nat.
Proof.
  revert s; induction n as [|n IH]; intros [|c s]; simpl; auto.
Qed.

Lemma prefix_length (p s : string) :
  String.prefix p s = true -> (String.length p <= String.length s)%nat.
Proof.
  revert p; induction s as [|c s IH]; intros [|d p]; simpl; try lia; try discriminate.
  destruct (ascii_dec d c); [|discriminate].
  intros H; apply IH in H; lia.
Qed.

Lemma cut_unfold (sep s : string) :
  cut sep s =
  if String.prefix sep s then Some ("", drop (String.length sep) s)
  else match s with
       | "" => None
       | String c rest =>
           match cut sep rest with
           | Some (h, t) => Some (String c h, t)
           | None => None
           end
       end.
Proof. destruct s; reflexivity. Qed.

Lemma cut_length (sep s h t : string) :
  cut sep s = Some (h, t) ->
  (String.length h + String.length sep + String.length t = String.length s)%nat.
Proof.
  revert h t; induction s as [|c s IH]; intros h t; rewrite cut_unfold;
    destruct (String.prefix sep _) eqn:Hp.
  - intros H; inversion H; subst; clear H.
    apply prefix_length in Hp. rewrite drop_length. cbn [String.length] in *. lia.
  - discriminate.
  - intros H; inversion H; subst; clear H.
    apply prefix_length in Hp. rewrite drop_length. cbn [String.length] in *. lia.
  - destruct (cut sep s) as [[h' t']|]; [|discriminate].
    intros H; inversion H; subst; clear H.
    specialize (IH _ _ eq_refl). simpl. lia.
Qed.

Lemma TrimLeft_length (s cutset : string) :
  (String.length (TrimLeft s cutset) <= String.length s)%nat.
Proof.
  induction s as [|c s IH]; simpl; [lia|].
  destruct (mem_byte c cutset); simpl; lia.
Qed.

Lemma substring_all (s : string) : String.substring 0 (String.length s) s = s.
Proof. induction s as [|c s IH]; simpl; [|rewrite IH]; reflexivity. Qed.

(** [splitString] on the space: the text left is shorter than a non-empty
    input. *)
Lemma splitString_space_shorter (s head cons : string) :
  splitString s " " = Ret (head, cons) ->
  s <> "" ->
  (String.length cons < String.length s)%nat.
Proof.
  unfold splitString. cbn [SplitN].
  destruct (cut " " s) as [[h t]|] eqn:Hc; cbn.
  - intros H _; inversion H; subst; clear H.
    apply cut_length in Hc. simpl in Hc.
    pose proof (TrimLeft_length t " "). lia.
  - intros H Hs. destruct s; [congruence|].
    inversion H; subst; simpl; lia.
Qed.

Lemma argStep_shorter (data arg data' : string) :
  argStep data = Ret (arg, data') ->
  (String.length data' < String.length data)%nat.
Proof.
  unfold argStep, byte_at.
  destruct data as [|c data]; [discriminate|]. cbn [String.get bind].
  destruct (Ascii.eqb c ":").
  - unfold slice_from. cbn. intros H; inversion H; simpl; lia.
  - intros H. apply splitString_space_shorter in H; [exact H|discriminate].
Qed.

(** A value together with the equation that defines it, for the case
    analyses of [argLoop]. *)
Definition inspect {A : Type} (x : A) : {y : A | x = y} := exist _ x eq_refl.

(** The argument loop: [for len(data) > 0 { ... }], with the arguments
    collected so far. *)
Equations? argLoop (data : string) (args : list string) : exec (list string)
  by wf (String.length data) lt :=
  argLoop data args with inspect (0 <? len data)%Z := {
    | exist _ false _ => Ret args
    | exist _ true _ with inspect (argStep data) := {
        | exist _ (Ret (arg, data')) Hstep => argLoop data' (args ++ [arg])
        | exist _ (Panic why) _ => Panic why } }.
Proof. eapply argStep_shorter; eassumption. Qed.

Definition Parse (data : string) : exec (Message * option error) :=
  let msg := mkMessage data "" "" "" "" [] in
  c <- byte_at data 0 ;;
  ' (msg, data) <-
    (if Ascii.eqb c ":" then
       body <- slice_from data 1 ;;
       ' (prefix, data) <- splitString body " " ;;
       ' (origin, prefix) <- splitString prefix "!" ;;
       ' (user, host) <- splitString prefix "@" ;;
       Ret (mkMessage (Raw msg) origin user host (Command msg) (Arguments msg), data)
     else Ret (msg, data)) ;;
  ' (cmd, data) <- splitString data " " ;;
  args <- argLoop data (Arguments msg) ;;
  Ret (mkMessage (Raw msg) (Origin msg) (User msg) (Host msg) cmd args, None).

(** The zero value [Message{}]. *)
Definition zeroMessage : Message := mkMessage "" "" "" "" "" [].

(** [read]: the next message of the stream, parsed; a message that was too
    long is parsed from its truncated text and returned with the error. *)
Definition read (r : Reader) : exec ((Message * option error) * Reader) :=
  let '((data, err), r') := readMsgData r in
  match err with
  | Some (MsgTooLong text n) =>
      ' (m, err') <- Parse text ;;
      match err' with
      | Some e => Ret ((zeroMessage, Some e), r')
      | None => Ret ((m, Some (MsgTooLong text n)), r')
      end
  | Some e => Ret ((zeroMessage, Some e), r')
  | None =>
      res <- Parse data ;;
      Ret (res, r')
  end.

(** * Vocabulary of the statements *)

(** *** Texts *)

Definition starts_with (c : byte) (s : string) : bool :=
  match s with
  | EmptyString => false
  | String x _ => Ascii.eqb x c
  end.

(** A run of [k] spaces. *)
Fixpoint spaces (k : nat) : string :=
  match k with
  | O => ""
  | S k' => String " " (spaces k')
  end.

(** A token: a non-empty text without a space that does not start with the
    trailing marker. *)
Definition token (s : string) : bool :=
  nonempty s && negb (mem_byte " " s) && negb (starts_with ":" s).

(** The text the argument loop of [RawString] appends. *)
Fixpoint wireArgs (args : list string) : string :=
  match args with
  | [] => ""
  | a :: rest =>
      match rest with
      | [] => " :" ++ a
      | _ :: _ => " " ++ a ++ wireArgs rest
      end
  end.

(** The prefix of a reconstructed message: [origin[!user@host]]. *)
Definition prefixBody (m : Message) : string :=
  Origin m ++ (if nonempty (User m) then String "!" (User m ++ String "@" (Host m)) else "").

(** A run of [k] newline bytes. *)
Fixpoint newlines (k : nat) : string :=
  match k with
  | O => ""
  | S k' => String LF (newlines k')
  end.

Fixpoint last_byte (s : string) : option byte :=
  match s with
  | EmptyString => None
  | String c rest =>
      match rest with
      | EmptyString => Some c
      | String _ _ => last_byte rest
      end
  end.

Definition ends_with (c : byte) (s : string) : bool :=
  match last_byte s with
  | Some x => Ascii.eqb x c
  | None => false
  end.

(** Every argument but the last is a token. *)
Fixpoint inner_tokens (args : list string) : bool :=
  match args with
  | [] => true
  | a :: rest =>
      match rest with
      | [] => true
      | _ :: _ => token a && inner_tokens rest
      end
  end.

(** The field that ends the reconstructed text. *)
Definition final_field (m : Message) : string := last (Arguments m) (Command m).

(** The messages that [RawString] writes in a way [Parse] reads back:
    - the origin holds no space and no ['!'], the user no space and no ['@'],
      the host no space;
    - a host needs a user and a user needs an origin;
    - the command is not empty, holds no space and, without an origin, does
      not start with [':'];
    - every argument but the last is a token;
    - the last argument, or the command when there is no argument, does not
      end in a newline. *)
Definition wellFormed (m : Message) : bool :=
  negb (mem_byte " " (Origin m)) && negb (mem_byte "!" (Origin m))
  && negb (mem_byte " " (User m)) && negb (mem_byte "@" (User m))
  && negb (mem_byte " " (Host m))
  && (nonempty (User m) || negb (nonempty (Host m)))
  && (nonempty (Origin m) || negb (nonempty (User m)))
  && nonempty (Command m) && negb (mem_byte " " (Command m))
  && (nonempty (Origin m) || negb (starts_with ":" (Command m)))
  && inner_tokens (Arguments m)
  && negb (ends_with LF (final_field m)).

(** *** Messages used as examples *)

Definition privmsg : Message :=
  mkMessage "" "nick" "u" "h" "PRIVMSG" ["#x"; "hello world"].

(** The last argument ends in a newline; origin, user and host are all
    present and no argument holds a space. *)
Definition privmsg_newline : Message :=
  mkMessage "" "nick" "u" "h" "PRIVMSG" ["#x"; "hello" ++ newline].

(** An inner argument starts with the trailing marker. *)
Definition colon_argument : Message :=
  mkMessage "" "" "" "" "MODE" [":a"; "b"].

(** The origin holds a ['!']. *)
Definition bang_origin : Message :=
  mkMessage "" "a!b" "" "" "PING" [].

Definition filler_text (n : nat) : string :=
  string_of_list_ascii (repeat "a"%char n).

(** The reconstructed text has 511 bytes, the last one a newline. *)
Definition privmsg_511 : Message :=
  mkMessage "" "" "" "" "PRIVMSG" ["#x"; filler_text 498 ++ newline].

(** [Raw] ends in a newline. *)
Definition ping_newline : Message :=
  mkMessage ("PING" ++ newline) "" "" "" "" [].

(** [Raw] is set, and so are fields that do not agree with it. *)
Definition ping : Message := mkMessage "PING :srv" "ignored" "" "" "JOIN" ["#x"].

(** *** Bytes of the stream *)

(** A byte that [readMsgData] collects: not NUL, LF or CR. *)
Definition plain (c : byte) : bool :=
  negb (Ascii.eqb c NUL) && negb (Ascii.eqb c LF) && negb (Ascii.eqb c CR).

(** A byte that [readMsgData] collects or strips. *)
Definition plain_or_LF (c : byte) : bool := plain c || Ascii.eqb c LF.

(** The bytes of [p] that are collected. *)
Definition text_of (p : list byte) : list byte := filter plain p.

(** [CR LF] occurs in [last :: l]. *)
Fixpoint hasCRLF (last : byte) (l : list byte) : bool :=
  match l with
  | [] => false
  | c :: rest => (Ascii.eqb last CR && Ascii.eqb c LF) || hasCRLF c rest
  end.

(** What a read can return: a message text that is not empty, or an error
    with the empty text; the text of a [MsgTooLong] made by the reader is
    not empty either. *)
Definition read_result_ok (cl : error) (res : string * option error) : Prop :=
  match res with
  | (data, None) => data <> ""
  | (data, Some e) =>
      data = "" /\
      match e with
      | MsgTooLong text _ => text <> "" \/ e = cl
      | _ => True
      end
  end.

(** *** Streams of frames *)

(** What a sender writes for one message text: the text and the delimiter. *)
Definition frame (text : list byte) : list byte := text ++ [CR; LF].

(** The frames of several texts, one after the other. *)
Definition wire (texts : list (list byte)) : list byte := concat (map frame texts).

(** A text that fits a frame: plain bytes, 510 at most. *)
Definition fits (text : list byte) : bool :=
  forallb plain text && (len_bytes text <=? MaxBytes - len delimiter)%Z.

Definition is_nil (text : list byte) : bool :=
  match text with
  | [] => true
  | _ :: _ => false
  end.

(** The loop of a caller that reads messages until a read fails, as the
    package's test of the reader does; [rounds] bounds the number of
    reads. *)
Fixpoint readAll (rounds : nat) (r : Reader) : list string * option error :=
  match rounds with
  | O => ([], None)
  | S rounds' =>
      match readMsgData r with
      | ((data, None), r') =>
          let '(texts, err) := readAll rounds' r' in (data :: texts, err)
      | ((_, Some err), _) => ([], Some err)
      end
  end.

(** What [readMsgData] has collected at any time: plain bytes, 510 at most. *)
Definition collected (msg : list byte) : Prop :=
  forallb plain msg = true /\ (len_bytes msg <= 510)%Z.

(** What [readMsgData] hands back: the bytes left in the source are an end
    of those it was given; a returned text has between 1 and 510 bytes, all
    plain, and an error comes with the empty text. *)
Definition read_post (pending : list byte)
  (res : (string * option error) * list byte) : Prop :=
  (exists used, pending = (used ++ snd res)%list) /\
  match snd (fst res) with
  | None =>
      exists text, fst (fst res) = string_of_list_ascii text /\ text <> [] /\
                   forallb plain text = true /\ (len_bytes text <= 510)%Z
  | Some _ => fst (fst res) = ""
  end.

(** * Properties *)

(** ** Strings *)

Lemma append_nil_r (s : string) : s ++ "" = s.
Proof. induction s as [|c s IH]; simpl; [|rewrite IH]; reflexivity. Qed.

Lemma append_assoc (a b c : string) : (a ++ b) ++ c = a ++ (b ++ c).
Proof. induction a as [|x a IH]; simpl; [|rewrite IH]; reflexivity. Qed.

Lemma append_length (a b : string) :
  String.length (a ++ b) = (String.length a + String.length b)%nat.
Proof. induction a as [|x a IH]; simpl; [|rewrite IH]; reflexivity. Qed.

Lemma mem_byte_app (c : byte) (a b : string) :
  mem_byte c (a ++ b) = mem_byte c a || mem_byte c b.
Proof.
  induction a as [|x a IH]; simpl; [reflexivity|].
  rewrite IH, orb_assoc. reflexivity.
Qed.

Lemma slice_from_1 (c : byte) (s : string) : slice_from (String c s) 1 = Ret s.
Proof.
  unfold slice_from. cbn. rewrite Nat.sub_0_r, substring_all. reflexivity.
Qed.

(** *** Splitting at a one-byte separator *)

Lemma cut_byte_absent (d : byte) (a : string) :
  mem_byte d a = false -> cut (String d "") a = None.
Proof.
  induction a as [|c a IH]; [reflexivity|].
  cbn [mem_byte]. intros H. apply orb_false_iff in H as [Hd Ha].
  rewrite cut_unfold. cbn [String.prefix].
  destruct (ascii_dec d c) as [->|_]; [rewrite Ascii.eqb_refl in Hd; discriminate|].
  rewrite (IH Ha). reflexivity.
Qed.

Lemma cut_byte_found (d : byte) (a b : string) :
  mem_byte d a = false -> cut (String d "") (a ++ String d b) = Some (a, b).
Proof.
  induction a as [|c a IH].
  - intros _. rewrite cut_unfold. cbn [append String.prefix].
    destruct (ascii_dec d d) as [_|N]; [|congruence].
    destruct b; reflexivity.
  - cbn [mem_byte append]. intros H. apply orb_false_iff in H as [Hd Ha].
    rewrite cut_unfold. cbn [String.prefix].
    destruct (ascii_dec d c) as [->|_]; [rewrite Ascii.eqb_refl in Hd; discriminate|].
    rewrite (IH Ha). reflexivity.
Qed.

Lemma splitString_absent (d : byte) (a : string) :
  mem_byte d a = false -> splitString a (String d "") = Ret (a, "").
Proof.
  intros H. unfold splitString. cbn [SplitN]. rewrite (cut_byte_absent _ _ H).
  cbn. destruct (Ascii.eqb d " "); reflexivity.
Qed.

Lemma splitString_found (d : byte) (a b : string) :
  mem_byte d a = false ->
  splitString (a ++ String d b) (String d "") =
  Ret (a, if String.eqb (String d "") " " then TrimLeft b (String d "") else b).
Proof.
  intros H. unfold splitString. cbn [SplitN]. rewrite (cut_byte_found _ _ b H).
  reflexivity.
Qed.

(** [splitString] never leaves the range of its slice of parts. *)
Lemma splitString_returns (s delim : string) :
  exists head cons, splitString s delim = Ret (head, cons).
Proof.
  unfold splitString. cbn [SplitN].
  destruct (cut delim s) as [[h t]|]; cbn; eauto.
Qed.

Lemma TrimLeft_no_space (s : string) :
  starts_with " " (TrimLeft s " ") = false.
Proof.
  induction s as [|c s IH]; [reflexivity|].
  cbn [TrimLeft mem_byte]. rewrite orb_false_r.
  destruct (Ascii.eqb c " ") eqn:Hc; [exact IH|exact Hc].
Qed.

Lemma TrimLeft_id (s : string) :
  starts_with " " s = false -> TrimLeft s " " = s.
Proof.
  destruct s as [|c s]; [reflexivity|].
  cbn. intros ->. reflexivity.
Qed.

Lemma TrimLeft_spaces (k : nat) (s : string) :
  TrimLeft (spaces k ++ s) " " = TrimLeft s " ".
Proof. induction k as [|k IH]; [reflexivity|exact IH]. Qed.

(** ** The argument loop *)

Lemma argLoop_eq (data : string) (args : list string) :
  argLoop data args =
  if (0 <? len data)%Z then
    match argStep data with
    | Ret (arg, data') => argLoop data' (args ++ [arg])
    | Panic why => Panic why
    end
  else Ret args.
Proof.
  funelim (argLoop data args).
  - rewrite e. reflexivity.
  - rewrite e, Hstep. reflexivity.
  - rewrite e, e0. reflexivity.
Qed.

Lemma argLoop_done (args : list string) : argLoop "" args = Ret args.
Proof. rewrite argLoop_eq. reflexivity. Qed.

Lemma len_String (c : byte) (s : string) : (0 <? len (String c s))%Z = true.
Proof. unfold len. cbn [String.length]. apply Z.ltb_lt. lia. Qed.

(** A remainder that starts with the trailing marker: the rest is the final
    argument, whatever it holds. *)
Lemma argLoop_trailing (rest : string) (args : list string) :
  argLoop (String ":" rest) args = Ret (args ++ [rest])%list.
Proof.
  rewrite argLoop_eq, len_String. unfold argStep. cbn [byte_at String.get bind].
  rewrite Ascii.eqb_refl, slice_from_1. cbn [bind]. apply argLoop_done.
Qed.

Lemma argStep_token (tok : string) :
  token tok = true -> argStep tok = splitString tok " ".
Proof.
  unfold token, argStep. destruct tok as [|c tok]; [discriminate|].
  cbn [nonempty starts_with byte_at String.get bind andb].
  intros H. apply andb_true_iff in H as [_ H]. apply negb_true_iff in H.
  rewrite H. reflexivity.
Qed.

Lemma argStep_token_app (tok rest : string) :
  token tok = true -> argStep (tok ++ rest) = splitString (tok ++ rest) " ".
Proof.
  unfold token, argStep. destruct tok as [|c tok]; [discriminate|].
  cbn [nonempty starts_with byte_at String.get bind andb append].
  intros H. apply andb_true_iff in H as [_ H]. apply negb_true_iff in H.
  rewrite H. reflexivity.
Qed.

Lemma token_no_space (tok : string) : token tok = true -> mem_byte " " tok = false.
Proof.
  unfold token. intros H. apply andb_true_iff in H as [H _].
  apply andb_true_iff in H as [_ H]. apply negb_true_iff in H. exact H.
Qed.

Lemma token_app_len (tok rest : string) :
  token tok = true -> (0 <? len (tok ++ rest))%Z = true.
Proof.
  destruct tok as [|c tok]; [discriminate|]. intros _. apply len_String.
Qed.

(** A token followed by a space: the token is the next argument and the
    loop goes on after the spaces that follow it. *)
Lemma argLoop_token (tok rest : string) (args : list string) :
  token tok = true ->
  argLoop (tok ++ String " " rest) args = argLoop (TrimLeft rest " ") (args ++ [tok]).
Proof.
  intros H. rewrite argLoop_eq, (token_app_len _ _ H), (argStep_token_app _ _ H).
  rewrite (splitString_found " " tok rest (token_no_space _ H)). reflexivity.
Qed.

(** A token that ends the text is the last argument. *)
Lemma argLoop_last_token (tok : string) (args : list string) :
  token tok = true -> argLoop tok args = Ret (args ++ [tok])%list.
Proof.
  intros H. rewrite argLoop_eq. rewrite <- (append_nil_r tok) at 1.
  rewrite (token_app_len _ _ H), (argStep_token _ H).
  rewrite (splitString_absent " " tok (token_no_space _ H)). apply argLoop_done.
Qed.

Lemma argStep_returns (c : byte) (data : string) :
  exists arg data', argStep (String c data) = Ret (arg, data').
Proof.
  unfold argStep. cbn [byte_at String.get bind].
  destruct (Ascii.eqb c ":").
  - rewrite slice_from_1. cbn [bind]. eauto.
  - apply splitString_returns.
Qed.

(** The loop never panics and never runs on: it returns for every text. *)
Lemma argLoop_returns (data : string) (args : list string) :
  exists out, argLoop data args = Ret out.
Proof.
  funelim (argLoop data args).
  - eauto.
  - assumption.
  - destruct data as [|c data]; [discriminate e|].
    destruct (argStep_returns c data) as (arg & data' & Hs). congruence.
Qed.

Lemma splitString_space_head (s head cons : string) :
  splitString s " " = Ret (head, cons) ->
  nonempty s = true -> starts_with " " s = false ->
  nonempty head = true /\ starts_with " " cons = false.
Proof.
  unfold splitString. cbn [SplitN]. rewrite cut_unfold.
  destruct s as [|c s]; [discriminate 2|]. cbn [String.prefix starts_with].
  intros H _ Hc.
  destruct (ascii_dec " " c) as [<-|_]; [discriminate Hc|].
  destruct (cut " " s) as [[h t]|]; cbn in H; inversion H; subst.
  - split; [reflexivity|apply TrimLeft_no_space].
  - split; reflexivity.
Qed.

Lemma argStep_inv (data arg data' : string) :
  argStep data = Ret (arg, data') ->
  starts_with " " data = false ->
  starts_with " " data' = false /\ (nonempty arg = true \/ data' = "").
Proof.
  unfold argStep. destruct data as [|c data]; [discriminate|].
  cbn [byte_at String.get bind].
  destruct (Ascii.eqb c ":").
  - rewrite slice_from_1. cbn [bind]. intros H _. inversion H; subst. auto.
  - intros H Hc. apply splitString_space_head in H; [|reflexivity|exact Hc].
    destruct H; auto.
Qed.

(** Only the last argument the loop adds can be empty. *)
Lemma argLoop_tokens_nonempty (data : string) (args out : list string) :
  starts_with " " data = false ->
  argLoop data args = Ret out ->
  exists new, out = (args ++ new)%list /\
              Forall (fun a => nonempty a = true) (removelast new).
Proof.
  revert out. funelim (argLoop data args); intros out Hsp Hout.
  - inversion Hout; subst. exists []. rewrite app_nil_r. split; constructor.
  - destruct (argStep_inv _ _ _ Hstep Hsp) as [Hsp' Harg].
    destruct (H out Hsp' Hout) as (new & -> & Hnew).
    exists (arg :: new). rewrite <- app_assoc. split; [reflexivity|].
    destruct new as [|b new]; [constructor|].
    change (removelast (arg :: b :: new)) with (arg :: removelast (b :: new)).
    constructor; [|exact Hnew].
    destruct Harg as [Harg| ->]; [exact Harg|].
    rewrite argLoop_done in Hout. inversion Hout as [Heq].
    rewrite <- (app_nil_r (args ++ [arg])) in Heq at 1.
    apply app_inv_head in Heq. discriminate.
  - discriminate.
Qed.

(** ** [Parse] *)

Lemma splitString_space_cons (s head cons : string) :
  splitString s " " = Ret (head, cons) -> starts_with " " cons = false.
Proof.
  unfold splitString. cbn [SplitN].
  destruct (cut " " s) as [[h t]|]; cbn; intros H; inversion H; subst.
  - apply TrimLeft_no_space.
  - reflexivity.
Qed.

Ltac split_returns s d :=
  let h := fresh "head" in
  let c := fresh "cons" in
  let E := fresh "Hsplit" in
  destruct (splitString_returns s d) as (h & c & E); rewrite E; cbn [bind].

(** What [Parse] does after its first byte: in every case the command is
    split off and the argument loop runs on a text without leading space. *)
Lemma Parse_shape (c : byte) (rest : string) :
  exists origin user host cmd data,
    starts_with " " data = false /\
    Parse (String c rest) =
      (args <- argLoop data [] ;;
       Ret (mkMessage (String c rest) origin user host cmd args, None)).
Proof.
  unfold Parse. cbn [byte_at String.get bind].
  destruct (Ascii.eqb c ":").
  - rewrite slice_from_1. cbn [bind].
    split_returns rest " ". split_returns head "!". split_returns cons0 "@".
    destruct (splitString_returns cons " ") as (cmd & data & E).
    exists head0, head1, cons1, cmd, data.
    split; [eapply splitString_space_cons; eassumption|].
    cbn. rewrite E. reflexivity.
  - destruct (splitString_returns (String c rest) " ") as (cmd & data & E).
    exists "", "", "", cmd, data.
    split; [eapply splitString_space_cons; eassumption|].
    cbn. rewrite E. reflexivity.
Qed.

Lemma Parse_returns (c : byte) (rest : string) :
  exists m, Parse (String c rest) = Ret (m, None) /\ Raw m = String c rest.
Proof.
  destruct (Parse_shape c rest) as (o & u & h & cmd & d & _ & ->).
  destruct (argLoop_returns d []) as (args & ->).
  cbn [bind]. eexists; split; reflexivity.
Qed.

(** C10: [Parse] needs a non-empty input.  Its first step reads [data[0]],
    which is out of range for the empty string, so that run panics.  On every
    non-empty input all the indexing and slicing of [Parse] and of
    [splitString] stays in range: the run returns a message, whose [Raw] is
    the input, with a nil error. *)
Theorem Parse_requires_nonempty (data : string) (Hdata : data <> "") :
  Parse "" = Panic (IndexOutOfRange 0 0) /\
  exists m, Parse data = Ret (m, None) /\ Raw m = data.
Proof.
  split; [reflexivity|].
  destruct data as [|c rest]; [congruence|]. apply Parse_returns.
Qed.

Lemma Parse_requires_nonempty_witness :
  "JOIN #x" <> "" /\
  Parse "" = Panic (IndexOutOfRange 0 0) /\
  exists m, Parse "JOIN #x" = Ret (m, None) /\ Raw m = "JOIN #x".
Proof.
  split; [discriminate|].
  apply (Parse_requires_nonempty "JOIN #x"). discriminate.
Defined.

Lemma Parse_arguments (data : string) (m : Message) (e : option error) :
  Parse data = Ret (m, e) ->
  Forall (fun a => nonempty a = true) (removelast (Arguments m)).
Proof.
  destruct data as [|c rest]; [discriminate|].
  destruct (Parse_shape c rest) as (o & u & h & cmd & d & Hd & ->).
  destruct (argLoop d []) as [args|why] eqn:Hloop; cbn [bind]; [|discriminate].
  intros H; inversion H; subst; clear H. cbn [Arguments].
  destruct (argLoop_tokens_nonempty _ _ _ Hd Hloop) as (new & -> & Hnew).
  exact Hnew.
Qed.

(** Without a prefix, the arguments of the message are what the argument
    loop takes from the text after the command. *)
Lemma Parse_command (cmd rest : string) :
  token cmd = true ->
  Parse (cmd ++ String " " rest) =
  (args <- argLoop (TrimLeft rest " ") [] ;;
   Ret (mkMessage (cmd ++ String " " rest) "" "" "" cmd args, None)).
Proof.
  intros Hcmd. unfold Parse.
  pose proof (splitString_found " " cmd rest (token_no_space _ Hcmd)) as Hsplit.
  unfold token in Hcmd. destruct cmd as [|c cmd]; [discriminate|].
  apply andb_true_iff in Hcmd as [_ Hc]. apply negb_true_iff in Hc.
  cbn [starts_with] in Hc.
  cbn [append byte_at String.get bind] in *. rewrite Hc. cbn [bind].
  rewrite Hsplit. reflexivity.
Qed.

(** The cases of the package's own test of [Parse]. *)
Example Parse_test_cases :
  Parse ":e!foo@bar.com JOIN #test54321"
    = Ret (mkMessage ":e!foo@bar.com JOIN #test54321"
                     "e" "foo" "bar.com" "JOIN" ["#test54321"], None) /\
  Parse ":e JOIN #test54321"
    = Ret (mkMessage ":e JOIN #test54321" "e" "" "" "JOIN" ["#test54321"], None) /\
  Parse "JOIN #test54321"
    = Ret (mkMessage "JOIN #test54321" "" "" "" "JOIN" ["#test54321"], None) /\
  Parse "JOIN #test54321 :foo bar"
    = Ret (mkMessage "JOIN #test54321 :foo bar" "" "" "" "JOIN"
                     ["#test54321"; "foo bar"], None) /\
  Parse "JOIN #test54321 ::foo bar"
    = Ret (mkMessage "JOIN #test54321 ::foo bar" "" "" "" "JOIN"
                     ["#test54321"; ":foo bar"], None) /\
  Parse "JOIN    #test54321    foo       bar   "
    = Ret (mkMessage "JOIN    #test54321    foo       bar   " "" "" "" "JOIN"
                     ["#test54321"; "foo"; "bar"], None) /\
  Parse "JOIN :" = Ret (mkMessage "JOIN :" "" "" "" "JOIN" [""], None).
Proof. repeat (split; [reflexivity|]). reflexivity. Qed.

(** C9: argument extraction in [Parse].
    - A remainder that starts with [':'] gives its rest, spaces included and
      unsplit, as the final argument, and the loop stops.
    - Otherwise the next token is taken; the run of spaces after it, however
      long, is skipped before the loop goes on.
    - A token followed by spaces only is the last argument: the spaces give
      no further argument.
    - After a command without prefix, the arguments of the message are those
      that this loop takes from the text that follows the command.
    - In every message that [Parse] returns, no argument but the last is
      empty (the last one is empty only after a bare trailing marker).
    - [Parse "JOIN #x ::trail"] has the arguments ["#x"] and [":trail"]. *)
Theorem Parse_argument_extraction
  (tok rest : string) (k : nat) (args : list string) (Htok : token tok = true) :
  argLoop (String ":" rest) args = Ret (args ++ [rest])%list /\
  argLoop (tok ++ spaces (S k) ++ rest) args
    = argLoop (TrimLeft rest " ") (args ++ [tok]) /\
  argLoop (tok ++ spaces k) args = Ret (args ++ [tok])%list /\
  Parse (tok ++ String " " rest)
    = (found <- argLoop (TrimLeft rest " ") [] ;;
       Ret (mkMessage (tok ++ String " " rest) "" "" "" tok found, None)) /\
  (forall data m e, Parse data = Ret (m, e) ->
     Forall (fun a => nonempty a = true) (removelast (Arguments m))) /\
  Parse "JOIN #x ::trail"
    = Ret (mkMessage "JOIN #x ::trail" "" "" "" "JOIN" ["#x"; ":trail"], None).
Proof.
  split; [|split; [|split; [|split; [|split]]]].
  - apply argLoop_trailing.
  - cbn [spaces append]. rewrite (argLoop_token _ _ _ Htok), TrimLeft_spaces.
    reflexivity.
  - destruct k as [|k].
    + cbn [spaces]. rewrite append_nil_r. apply argLoop_last_token, Htok.
    + cbn [spaces]. rewrite (argLoop_token _ _ _ Htok).
      rewrite <- (append_nil_r (spaces k)), TrimLeft_spaces. cbn [TrimLeft].
      apply argLoop_done.
  - apply Parse_command, Htok.
  - apply Parse_arguments.
  - reflexivity.
Qed.

Lemma Parse_argument_extraction_witness :
  token "#x" = true /\
  argLoop "#x   :a b" [] = argLoop ":a b" ["#x"] /\
  argLoop "#x  " ["#w"] = Ret ["#w"; "#x"].
Proof.
  split; [reflexivity|].
  pose proof (Parse_argument_extraction "#x" ":a b" 2 [] eq_refl) as (_ & H2 & _).
  pose proof (Parse_argument_extraction "#x" "" 2 ["#w"] eq_refl)
    as (_ & _ & H3 & _).
  split; [exact H2|exact H3].
Defined.

(** ** [RawString] *)

Lemma appendArgs_wire (args : list string) (raw : string) (n i : Z) :
  n = (i + Z.of_nat (List.length args))%Z ->
  appendArgs raw n i args = raw ++ wireArgs args.
Proof.
  revert raw i; induction args as [|a rest IH]; intros raw i Hn.
  - cbn. rewrite append_nil_r. reflexivity.
  - cbn [appendArgs]. rewrite IH by (cbn [List.length] in Hn; lia).
    destruct rest as [|b rest].
    + cbn [List.length] in Hn.
      replace (i =? n - 1)%Z with true by (symmetry; apply Z.eqb_eq; lia).
      cbn [wireArgs]. rewrite append_nil_r. reflexivity.
    + cbn [List.length] in Hn.
      replace (i =? n - 1)%Z with false by (symmetry; apply Z.eqb_neq; lia).
      rewrite append_assoc.
      change (wireArgs (a :: b :: rest)) with (" " ++ a ++ wireArgs (b :: rest)).
      rewrite append_assoc. reflexivity.
Qed.

Lemma buildRaw_shape (m : Message) :
  buildRaw m =
  (if nonempty (Origin m) then String ":" (prefixBody m ++ String " " "") else "")
  ++ Command m ++ wireArgs (Arguments m).
Proof.
  unfold buildRaw, prefixBody. rewrite appendArgs_wire by lia.
  destruct (nonempty (Origin m)), (nonempty (User m));
    cbn [append]; rewrite ?append_assoc; cbn [append];
    rewrite ?append_assoc, ?append_nil_r; cbn [append]; reflexivity.
Qed.

(** [TrimRight] with the newline as cut set removes a run of newlines from
    the end and nothing else. *)
Lemma TrimRight_newlines (s : string) :
  exists k, s = TrimRight s newline ++ newlines k.
Proof.
  induction s as [|c s (k & IH)]; [exists O; reflexivity|].
  cbn [TrimRight]. destruct (TrimRight s newline) as [|x kept] eqn:Ht.
  - cbn [mem_byte newline]. rewrite orb_false_r.
    destruct (Ascii.eqb_spec c LF) as [->|Hc].
    + exists (S k). cbn [append newlines] in *. rewrite <- IH. reflexivity.
    + exists k. cbn [append] in *. rewrite <- IH. reflexivity.
  - exists k. cbn [append] in *. rewrite <- IH. reflexivity.
Qed.

Lemma TrimRight_id (s : string) :
  ends_with LF s = false -> TrimRight s newline = s.
Proof.
  unfold ends_with. induction s as [|c s IH]; [reflexivity|].
  cbn [last_byte TrimRight]. destruct s as [|d s].
  - cbn. intros ->. reflexivity.
  - intros H. rewrite (IH H). reflexivity.
Qed.

Lemma last_byte_cons (x : byte) (s : string) :
  nonempty s = true -> last_byte (String x s) = last_byte s.
Proof. destruct s; [discriminate|reflexivity]. Qed.

Lemma last_byte_app (a b : string) :
  nonempty b = true -> last_byte (a ++ b) = last_byte b.
Proof.
  intros Hb. induction a as [|x a IH]; [reflexivity|].
  cbn [append]. rewrite last_byte_cons; [exact IH|].
  destruct a; [exact Hb|reflexivity].
Qed.

Lemma RawString_eq (m : Message) :
  RawString m =
  if (len (candidate m) >? 510)%Z
  then ("", Some (MsgTooLong (candidate m) (len (candidate m) - 510)))
  else (TrimRight (candidate m) newline, None).
Proof. reflexivity. Qed.

(** C4, amended: the length guard is enforced on the candidate as it stands,
    before any trailing newline is stripped.  [RawString] fails exactly when
    the unstripped candidate is longer than 510 bytes, and then reports that
    candidate and its excess over 510; otherwise it returns the candidate
    without its trailing newlines, and nothing else is removed. *)
Theorem RawString_guard_then_trim (m : Message) :
  (snd (RawString m) <> None <-> (len (candidate m) > MaxBytes - len delimiter)%Z) /\
  (snd (RawString m) <> None ->
     RawString m =
     ("", Some (MsgTooLong (candidate m)
                           (len (candidate m) - (MaxBytes - len delimiter))))) /\
  (snd (RawString m) = None ->
     fst (RawString m) = TrimRight (candidate m) newline /\
     exists k, candidate m = fst (RawString m) ++ newlines k).
Proof.
  change (MaxBytes - len delimiter)%Z with 510%Z.
  rewrite RawString_eq.
  destruct (Z.gtb_spec (len (candidate m)) 510) as [Hgt|Hle]; cbn [fst snd].
  - split; [|split].
    + split; [lia|discriminate].
    + reflexivity.
    + discriminate.
  - split; [|split].
    + split; [congruence|lia].
    + congruence.
    + intros _. split; [reflexivity|apply TrimRight_newlines].
Qed.

(** C5, amended: a non-empty [Raw] of at most 510 bytes is returned with its
    trailing newline bytes stripped, the fields being ignored; it is returned
    unchanged when it does not end in a newline. *)
Theorem RawString_raw (m : Message)
  (Hraw : Raw m <> "") (Hlen : (len (Raw m) <= MaxBytes - 2)%Z) :
  RawString m = (TrimRight (Raw m) newline, None) /\
  (ends_with LF (Raw m) = false -> RawString m = (Raw m, None)).
Proof.
  assert (Hc : candidate m = Raw m).
  { unfold candidate. destruct (Raw m); [congruence|reflexivity]. }
  rewrite RawString_eq, Hc.
  change (MaxBytes - 2)%Z with 510%Z in Hlen.
  destruct (Z.gtb_spec (len (Raw m)) 510) as [Hgt|Hle]; [lia|].
  split; [reflexivity|].
  intros H. rewrite (TrimRight_id _ H). reflexivity.
Qed.

(** ** Round trip *)

Lemma wireArgs_space (a : string) (rest : list string) :
  exists w, wireArgs (a :: rest) = String " " w.
Proof. destruct rest; cbn; eauto. Qed.

Lemma starts_with_app (c : byte) (a b : string) :
  nonempty a = true -> starts_with c (a ++ b) = starts_with c a.
Proof. destruct a; [discriminate|reflexivity]. Qed.

Lemma no_space_start (s : string) :
  mem_byte " " s = false -> starts_with " " s = false.
Proof.
  destruct s as [|c s]; [reflexivity|]. cbn.
  intros H. apply orb_false_iff in H as [H _].
  rewrite Ascii.eqb_sym. exact H.
Qed.

Lemma argLoop_wire (args acc : list string) :
  inner_tokens args = true ->
  argLoop (TrimLeft (wireArgs args) " ") acc = Ret (acc ++ args)%list.
Proof.
  revert acc; induction args as [|a rest IH]; intros acc Hin.
  - cbn. rewrite app_nil_r. apply argLoop_done.
  - destruct rest as [|b rest].
    + cbn. apply argLoop_trailing.
    + cbn [inner_tokens] in Hin. apply andb_true_iff in Hin as [Ha Hrest].
      change (wireArgs (a :: b :: rest)) with (String " " (a ++ wireArgs (b :: rest))).
      change (TrimLeft (String " " (a ++ wireArgs (b :: rest))) " ")
        with (TrimLeft (a ++ wireArgs (b :: rest)) " ").
      rewrite TrimLeft_id.
      2:{ rewrite starts_with_app.
          - apply no_space_start, token_no_space, Ha.
          - unfold token in Ha. destruct a; [discriminate|reflexivity]. }
      destruct (wireArgs_space b rest) as (w & Hw).
      specialize (IH (acc ++ [a])%list Hrest). rewrite Hw in *.
      rewrite (argLoop_token _ _ _ Ha).
      change (TrimLeft (String " " w) " ") with (TrimLeft w " ") in IH.
      rewrite IH, <- app_assoc. reflexivity.
Qed.

Lemma splitString_command (cmd : string) (args : list string) :
  mem_byte " " cmd = false ->
  splitString (cmd ++ wireArgs args) " " = Ret (cmd, TrimLeft (wireArgs args) " ").
Proof.
  intros H. destruct args as [|a rest].
  - cbn [wireArgs]. rewrite append_nil_r. apply splitString_absent, H.
  - destruct (wireArgs_space a rest) as (w & ->).
    rewrite (splitString_found " " cmd w H). reflexivity.
Qed.

(** [Parse] on a text without prefix. *)
Lemma Parse_plain (cmd : string) (args : list string) :
  nonempty cmd = true -> mem_byte " " cmd = false -> starts_with ":" cmd = false ->
  inner_tokens args = true ->
  Parse (cmd ++ wireArgs args) =
  Ret (mkMessage (cmd ++ wireArgs args) "" "" "" cmd args, None).
Proof.
  intros Hne Hsp Hcolon Hargs. unfold Parse.
  pose proof (splitString_command cmd args Hsp) as Hsplit.
  destruct cmd as [|c cmd]; [discriminate|].
  cbn [append byte_at String.get bind] in *. cbn [starts_with] in Hcolon.
  rewrite Hcolon. cbn [bind]. rewrite Hsplit. cbn [bind Arguments].
  rewrite (argLoop_wire args [] Hargs). reflexivity.
Qed.

(** [Parse] on a text with a prefix. *)
Lemma Parse_prefixed (body cmd : string) (args : list string) :
  mem_byte " " body = false ->
  nonempty cmd = true -> mem_byte " " cmd = false ->
  inner_tokens args = true ->
  Parse (String ":" (body ++ String " " (cmd ++ wireArgs args))) =
  (' (origin, rest) <- splitString body "!" ;;
   ' (user, host) <- splitString rest "@" ;;
   Ret (mkMessage (String ":" (body ++ String " " (cmd ++ wireArgs args)))
                  origin user host cmd args, None)).
Proof.
  intros Hbody Hne Hsp Hargs. unfold Parse.
  cbn [byte_at String.get bind]. rewrite Ascii.eqb_refl, slice_from_1. cbn [bind].
  rewrite (splitString_found " " body _ Hbody).
  change (String.eqb " " " ") with true. cbv iota.
  rewrite TrimLeft_id.
  2:{ rewrite (starts_with_app _ _ _ Hne). apply no_space_start, Hsp. }
  cbn [bind].
  destruct (splitString_returns body "!") as (o & r & ->). cbn [bind].
  destruct (splitString_returns r "@") as (u & h & ->). cbn [bind].
  rewrite (splitString_command cmd args Hsp). cbn [bind Arguments].
  rewrite (argLoop_wire args [] Hargs). reflexivity.
Qed.

Lemma wireArgs_last (a : string) (rest : list string) (d : string) :
  exists pre, wireArgs (a :: rest) = pre ++ String ":" (last (a :: rest) d).
Proof.
  revert a; induction rest as [|b rest IH]; intros a.
  - exists " ". reflexivity.
  - destruct (IH b) as (pre & Hpre).
    exists (String " " (a ++ pre)).
    change (wireArgs (a :: b :: rest)) with (String " " (a ++ wireArgs (b :: rest))).
    change (last (a :: b :: rest) d) with (last (b :: rest) d).
    rewrite Hpre. cbn [append]. rewrite append_assoc. reflexivity.
Qed.

Lemma ends_with_marker (pre l : string) :
  ends_with LF (pre ++ String ":" l) = ends_with LF l.
Proof.
  unfold ends_with. rewrite last_byte_app by reflexivity.
  destruct l; reflexivity.
Qed.

Lemma ends_with_app (a b : string) :
  nonempty b = true -> ends_with LF (a ++ b) = ends_with LF b.
Proof. intros H. unfold ends_with. rewrite (last_byte_app a b H). reflexivity. Qed.

(** The reconstructed text ends as its final field does. *)
Lemma buildRaw_end (m : Message) :
  nonempty (Command m) = true ->
  ends_with LF (buildRaw m) = ends_with LF (final_field m).
Proof.
  intros Hc. rewrite buildRaw_shape. unfold final_field.
  destruct (Arguments m) as [|a rest].
  - cbn [wireArgs last]. rewrite append_nil_r. apply ends_with_app, Hc.
  - destruct (wireArgs_last a rest (Command m)) as (pre & ->).
    rewrite <- !append_assoc. apply ends_with_marker.
Qed.

Lemma prefix_no_space (o u h : string) :
  mem_byte " " o = false -> mem_byte " " u = false -> mem_byte " " h = false ->
  mem_byte " " (o ++ String "!" (u ++ String "@" h)) = false.
Proof.
  intros Ho Hu Hh. rewrite mem_byte_app. cbn [mem_byte].
  rewrite mem_byte_app. cbn [mem_byte]. rewrite Ho, Hu, Hh. reflexivity.
Qed.

Ltac split_andb :=
  repeat match goal with
         | H : _ && _ = true |- _ => apply andb_true_iff in H as [? ?]
         | H : negb _ = true |- _ => apply negb_true_iff in H
         end.

(** C1, amended: a message with an empty [Raw] that is [wellFormed] and that
    [RawString] serialises is read back by [Parse] with the same origin,
    user, host, command and arguments. *)
Theorem Parse_RawString_roundtrip (m : Message) (s : string)
  (Hraw : Raw m = "") (Hwf : wellFormed m = true)
  (Hser : RawString m = (s, None)) :
  exists m', Parse s = Ret (m', None) /\
             Origin m' = Origin m /\ User m' = User m /\ Host m' = Host m /\
             Command m' = Command m /\ Arguments m' = Arguments m.
Proof.
  assert (Hcand : candidate m = buildRaw m).
  { unfold candidate. rewrite Hraw. reflexivity. }
  rewrite RawString_eq, Hcand in Hser.
  destruct (len (buildRaw m) >? 510)%Z; [discriminate|].
  inversion Hser as [Hs]; clear Hser Hs s.
  unfold wellFormed in Hwf. split_andb.
  rewrite (TrimRight_id (buildRaw m)).
  2:{ rewrite (buildRaw_end m); assumption. }
  rewrite buildRaw_shape. unfold prefixBody.
  destruct m as [raw o u h c args]; cbn [Raw Origin User Host Command Arguments] in *.
  destruct o as [|x o].
  - (* no origin, hence no user and no host *)
    destruct u as [|y u]; [|discriminate].
    destruct h as [|z h]; [|discriminate].
    cbn [nonempty append orb] in *. split_andb.
    rewrite Parse_plain by assumption.
    eexists; repeat split.
  - cbn [nonempty]. cbv iota.
    destruct u as [|y u].
    + (* an origin alone *)
      destruct h as [|z h]; [|discriminate].
      cbn [nonempty]. cbv iota. rewrite append_nil_r.
      change (String ":" (String x o ++ " ") ++ c ++ wireArgs args)
        with (String ":" ((String x o ++ " ") ++ c ++ wireArgs args)).
      rewrite append_assoc. cbn [append].
      change (String x (o ++ String " " (c ++ wireArgs args)))
        with (String x o ++ String " " (c ++ wireArgs args)).
      rewrite Parse_prefixed by assumption.
      rewrite splitString_absent by assumption. cbn [bind].
      eexists; repeat split.
    + (* origin, user and host *)
      cbn [nonempty]. cbv iota.
      set (body := String x o ++ String "!" (String y u ++ String "@" h)).
      change (String ":" (body ++ " ") ++ c ++ wireArgs args)
        with (String ":" ((body ++ " ") ++ c ++ wireArgs args)).
      rewrite append_assoc.
      change (" " ++ c ++ wireArgs args) with (String " " (c ++ wireArgs args)).
      rewrite Parse_prefixed; try assumption.
      * subst body.
        rewrite (splitString_found "!" (String x o) _) by assumption.
        cbn [String.eqb Ascii.eqb Bool.eqb bind]. cbv iota.
        rewrite (splitString_found "@" (String y u) _) by assumption.
        cbn [bind]. eexists; repeat split.
      * subst body. apply prefix_no_space; assumption.
Qed.

Lemma Parse_RawString_roundtrip_witness :
  Raw privmsg = "" /\ wellFormed privmsg = true /\
  RawString privmsg = (":nick!u@h PRIVMSG #x :hello world", None) /\
  exists m', Parse ":nick!u@h PRIVMSG #x :hello world" = Ret (m', None) /\
             Origin m' = "nick" /\ User m' = "u" /\ Host m' = "h" /\
             Command m' = "PRIVMSG" /\ Arguments m' = ["#x"; "hello world"].
Proof.
  split; [reflexivity|]. split; [reflexivity|]. split; [reflexivity|].
  apply (Parse_RawString_roundtrip privmsg ":nick!u@h PRIVMSG #x :hello world");
    reflexivity.
Defined.

(** C1 as stated fails: the newline that ends the last argument is stripped
    by [RawString], so [Parse] returns a different argument list. *)
Lemma roundtrip_loses_trailing_newline :
  Raw privmsg_newline = "" /\
  nonempty (Origin privmsg_newline) = true /\
  nonempty (User privmsg_newline) = true /\
  nonempty (Host privmsg_newline) = true /\
  forallb (fun a => negb (mem_byte " " a)) (Arguments privmsg_newline) = true /\
  RawString privmsg_newline = (":nick!u@h PRIVMSG #x :hello", None) /\
  Parse ":nick!u@h PRIVMSG #x :hello"
    = Ret (mkMessage ":nick!u@h PRIVMSG #x :hello" "nick" "u" "h" "PRIVMSG"
                     ["#x"; "hello"], None) /\
  ["#x"; "hello"] <> Arguments privmsg_newline.
Proof.
  repeat (split; [reflexivity|]). discriminate.
Qed.

(** Two more of the conditions of [wellFormed] at work: an inner argument
    that starts with the trailing marker swallows what follows it, and a
    ['!'] in the origin is read as the start of the user. *)
Example roundtrip_needs_tokens :
  wellFormed colon_argument = false /\
  RawString colon_argument = ("MODE :a :b", None) /\
  Parse "MODE :a :b" = Ret (mkMessage "MODE :a :b" "" "" "" "MODE" ["a :b"], None).
Proof. repeat split. Qed.

Example roundtrip_needs_plain_origin :
  wellFormed bang_origin = false /\
  RawString bang_origin = (":a!b PING", None) /\
  Parse ":a!b PING" = Ret (mkMessage ":a!b PING" "a" "b" "" "PING" [], None).
Proof. repeat split. Qed.

(** C4 as stated fails: without its trailing newline the candidate has 510
    bytes, which is within the bound, and yet [RawString] fails. *)
Lemma guard_precedes_trim :
  len (candidate privmsg_511) = 511%Z /\
  len (TrimRight (candidate privmsg_511) newline) = 510%Z /\
  RawString privmsg_511 = ("", Some (MsgTooLong (candidate privmsg_511) 1)).
Proof. vm_compute. repeat split. Qed.

Lemma RawString_guard_then_trim_witness :
  snd (RawString privmsg_511) <> None /\
  RawString privmsg_511 = ("", Some (MsgTooLong (candidate privmsg_511) 1)).
Proof.
  assert (H : snd (RawString privmsg_511) <> None) by (vm_compute; discriminate).
  split; [exact H|].
  destruct (RawString_guard_then_trim privmsg_511) as (_ & Hfail & _).
  rewrite (Hfail H). vm_compute. reflexivity.
Defined.

(** C5 as stated fails: a [Raw] that ends in a newline is not returned byte
    for byte. *)
Lemma raw_newline_is_stripped :
  Raw ping_newline <> "" /\ (len (Raw ping_newline) <= MaxBytes - 2)%Z /\
  RawString ping_newline = ("PING", None) /\ "PING" <> Raw ping_newline.
Proof.
  split; [discriminate|]. split; [vm_compute; discriminate|].
  split; [reflexivity|discriminate].
Qed.

Lemma RawString_raw_witness :
  Raw ping <> "" /\ (len (Raw ping) <= MaxBytes - 2)%Z /\
  RawString ping = ("PING :srv", None).
Proof.
  assert (H1 : Raw ping <> "") by discriminate.
  assert (H2 : (len (Raw ping) <= MaxBytes - 2)%Z) by (vm_compute; discriminate).
  split; [exact H1|]. split; [exact H2|].
  destruct (RawString_raw ping H1 H2) as [_ H]. apply H. reflexivity.
Defined.

(** ** Framing *)

(** The two loops, one round each, in terms of [ReadByte]. *)
Lemma junkLoop_ReadByte (r : Reader) (last : byte) (n : Z) :
  junkLoop (closing r) last n (pending r) =
  let '((c, err), r1) := ReadByte r in
  match err with
  | Some e => ((n, Some e), pending r1)
  | None =>
      let n := int_add n 1 in
      if Ascii.eqb last (delimiter_at 0) && Ascii.eqb c (delimiter_at 1)
      then ((int_add n (-1), None), pending r1)
      else junkLoop (closing r1) c n (pending r1)
  end.
Proof. destruct r as [[|c rest] cl]; reflexivity. Qed.

Lemma readLoop_ReadByte (r : Reader) (msg : list byte) :
  readLoop (closing r) msg (pending r) =
  let '((c, err), r1) := ReadByte r in
  match err with
  | Some io_EOF =>
      if (len_bytes msg >? 0)%Z
      then (("", Some (unexpected "end of file")), pending r1)
      else (("", Some io_EOF), pending r1)
  | Some e => (("", Some e), pending r1)
  | None =>
      if Ascii.eqb c NUL then (("", Some (unexpected "null")), pending r1)
      else if Ascii.eqb c LF then readLoop (closing r1) msg (pending r1)
      else if Ascii.eqb c CR then
        let '((c', err'), r2) := ReadByte r1 in
        match err' with
        | Some e =>
            (("", Some match e with
                       | io_EOF => unexpected "end of file"
                       | _ => e
                       end), pending r2)
        | None =>
            if negb (Ascii.eqb c' LF)
            then (("", Some (unexpected "carrage return")), pending r2)
            else if (len_bytes msg =? 0)%Z
                 then readLoop (closing r2) msg (pending r2)
                 else ((string_of_list_ascii msg, None), pending r2)
        end
      else if (len_bytes msg >=? MaxBytes - len delimiter)%Z then
        let '((n, _), rest') := junk (closing r1) (pending r1) in
        (("", Some (MsgTooLong
                      (string_of_list_ascii (firstn (List.length msg - 1) msg))
                      (int_add n 1))), rest')
      else readLoop (closing r1) (msg ++ [c]) (pending r1)
  end.
Proof.
  destruct r as [[|c rest] cl]; cbn [pending closing ReadByte].
  - destruct cl; reflexivity.
  - cbn [readLoop]. destruct rest as [|c' rest]; [|reflexivity].
    cbn [pending closing ReadByte]. destruct cl; reflexivity.
Qed.

Lemma int_add_small (a b : Z) :
  (int_min <= a + b <= int_max)%Z -> int_add a b = (a + b)%Z.
Proof.
  unfold int_add, wrap_int.
  change int_min with (-9223372036854775808)%Z.
  change int_max with 9223372036854775807%Z.
  change (2 ^ 64)%Z with 18446744073709551616%Z.
  intros H. rewrite Z.mod_small; lia.
Qed.

Section Framing.

(** What the byte source reports when its bytes run out. *)
Variable cl : error.

Lemma readLoop_NUL (msg rest : list byte) :
  readLoop cl msg (NUL :: rest) = (("", Some (unexpected "null")), rest).
Proof. reflexivity. Qed.

Lemma readLoop_LF (msg rest : list byte) :
  readLoop cl msg (LF :: rest) = readLoop cl msg rest.
Proof. reflexivity. Qed.


Lemma readLoop_CRLF (msg rest : list byte) :
  readLoop cl msg (CR :: LF :: rest) =
  if (len_bytes msg =? 0)%Z then readLoop cl msg rest
  else ((string_of_list_ascii msg, None), rest).
Proof. reflexivity. Qed.

Lemma plain_inv (c : byte) :
  plain c = true ->
  Ascii.eqb c NUL = false /\ Ascii.eqb c LF = false /\ Ascii.eqb c CR = false.
Proof.
  unfold plain. intros H. apply andb_true_iff in H as [H H3].
  apply andb_true_iff in H as [H1 H2].
  apply negb_true_iff in H1, H2, H3. auto.
Qed.

Lemma readLoop_plain (msg rest : list byte) (c : byte) :
  plain c = true ->
  readLoop cl msg (c :: rest) =
  if (len_bytes msg >=? MaxBytes - len delimiter)%Z then
    let '((n, _), rest') := junk cl rest in
    (("", Some (MsgTooLong
                  (string_of_list_ascii (firstn (List.length msg - 1) msg))
                  (int_add n 1))), rest')
  else readLoop cl (msg ++ [c]) rest.
Proof.
  intros H. destruct (plain_inv c H) as (H1 & H2 & H3).
  cbn [readLoop]. rewrite H1, H2, H3. reflexivity.
Qed.

(** Plain bytes are collected and bare LF bytes are dropped, as long as the
    collected text stays within 510 bytes. *)
Lemma readLoop_collect (p msg rest : list byte) :
  forallb plain_or_LF p = true ->
  (len_bytes (msg ++ text_of p) <= 510)%Z ->
  readLoop cl msg (p ++ rest) = readLoop cl (msg ++ text_of p) rest.
Proof.
  revert msg; induction p as [|c p IH]; intros msg Hp Hlen.
  - cbn. rewrite app_nil_r. reflexivity.
  - cbn [forallb] in Hp. apply andb_true_iff in Hp as [Hc Hp].
    unfold text_of in *. cbn [filter app] in *.
    destruct (plain c) eqn:Hpl.
    + rewrite (readLoop_plain _ _ _ Hpl).
      change (MaxBytes - len delimiter)%Z with 510%Z.
      unfold len_bytes in *. rewrite length_app in Hlen. cbn [List.length] in Hlen.
      destruct (Z.geb_spec (Z.of_nat (List.length msg)) 510) as [Hge|_]; [lia|].
      rewrite IH; [|exact Hp|].
      * rewrite <- app_assoc. reflexivity.
      * rewrite <- app_assoc. cbn [app]. rewrite length_app. cbn [List.length]. lia.
    + unfold plain_or_LF in Hc. rewrite Hpl in Hc. cbn [orb] in Hc.
      apply Ascii.eqb_eq in Hc. subst c. rewrite readLoop_LF.
      apply IH; assumption.
Qed.

Lemma forallb_plain_text (p : list byte) :
  forallb plain p = true -> forallb plain_or_LF p = true /\ text_of p = p.
Proof.
  induction p as [|c p IH]; [split; reflexivity|].
  cbn [forallb]. intros H. apply andb_true_iff in H as [Hc Hp].
  destruct (IH Hp) as [H1 H2]. unfold text_of, plain_or_LF in *.
  cbn [forallb filter]. rewrite Hc, H1, H2. split; reflexivity.
Qed.

(** *** Resynchronisation *)

Lemma junkLoop_finds (q next : list byte) (last : byte) (n : Z) :
  hasCRLF last q = false ->
  exists k, junkLoop cl last n (q ++ CR :: LF :: next) = ((k, None), next).
Proof.
  revert last n; induction q as [|c q IH]; intros last n Hq.
  - cbn [app junkLoop]. change (delimiter_at 0) with CR. change (delimiter_at 1) with LF.
    change (Ascii.eqb CR LF) with false. rewrite andb_false_r.
    change (Ascii.eqb CR CR && Ascii.eqb LF LF) with true. cbv iota. eauto.
  - cbn [hasCRLF] in Hq. apply orb_false_iff in Hq as [Hc Hq].
    cbn [app junkLoop]. change (delimiter_at 0) with CR. change (delimiter_at 1) with LF.
    rewrite Hc. apply IH, Hq.
Qed.

Lemma junkLoop_count (q next : list byte) (last : byte) (n : Z) :
  hasCRLF last q = false ->
  (0 <= n)%Z -> (n + len_bytes q + 2 <= int_max)%Z ->
  junkLoop cl last n (q ++ CR :: LF :: next) = ((n + len_bytes q + 1, None), next)%Z.
Proof.
  unfold len_bytes.
  revert last n; induction q as [|c q IH]; intros last n Hq Hn Hmax.
  - cbn [app junkLoop]. change (delimiter_at 0) with CR. change (delimiter_at 1) with LF.
    change (Ascii.eqb CR LF) with false. rewrite andb_false_r.
    change (Ascii.eqb CR CR && Ascii.eqb LF LF) with true. cbv iota.
    cbn [List.length] in *. change int_max with 9223372036854775807%Z in Hmax.
    assert (H1 : int_add n 1 = (n + 1)%Z).
    { apply int_add_small. change int_min with (-9223372036854775808)%Z.
      change int_max with 9223372036854775807%Z. lia. }
    assert (H2 : int_add (n + 1) 1 = (n + 2)%Z).
    { rewrite int_add_small; [lia|]. change int_min with (-9223372036854775808)%Z.
      change int_max with 9223372036854775807%Z. lia. }
    assert (H3 : int_add (n + 2) (-1) = (n + Z.of_nat 0 + 1)%Z).
    { rewrite int_add_small; [lia|]. change int_min with (-9223372036854775808)%Z.
      change int_max with 9223372036854775807%Z. lia. }
    rewrite H1, H2, H3. reflexivity.
  - cbn [hasCRLF] in Hq. apply orb_false_iff in Hq as [Hc Hq].
    cbn [app junkLoop]. change (delimiter_at 0) with CR. change (delimiter_at 1) with LF.
    rewrite Hc. cbn [List.length] in *.
    change int_max with 9223372036854775807%Z in Hmax.
    assert (H1 : int_add n 1 = (n + 1)%Z).
    { apply int_add_small. change int_min with (-9223372036854775808)%Z.
      change int_max with 9223372036854775807%Z. lia. }
    rewrite H1, IH; [|exact Hq|lia|change int_max with 9223372036854775807%Z; lia].
    replace (n + 1 + Z.of_nat (List.length q) + 1)%Z
      with (n + Z.of_nat (S (List.length q)) + 1)%Z by lia.
    reflexivity.
Qed.

Lemma junkLoop_end (q : list byte) (last : byte) (n : Z) :
  hasCRLF last q = false ->
  exists k, junkLoop cl last n q = ((k, Some cl), []).
Proof.
  revert last n; induction q as [|c q IH]; intros last n Hq.
  - cbn. eauto.
  - cbn [hasCRLF] in Hq. apply orb_false_iff in Hq as [Hc Hq].
    cbn [junkLoop]. change (delimiter_at 0) with CR. change (delimiter_at 1) with LF.
    rewrite Hc. apply IH, Hq.
Qed.

(** *** Reading *)

Lemma readMsgData_eq (s rest : list byte) (res : string * option error) :
  readLoop cl [] s = (res, rest) ->
  readMsgData (mkReader s cl) = (res, mkReader rest cl).
Proof. unfold readMsgData. cbn [pending closing]. intros ->. reflexivity. Qed.

Lemma len_bytes_repeat (f : byte) (n : nat) : len_bytes (repeat f n) = Z.of_nat n.
Proof. unfold len_bytes. rewrite repeat_length. reflexivity. Qed.

Lemma forallb_repeat (P : byte -> bool) (f : byte) (n : nat) :
  P f = true -> forallb P (repeat f n) = true.
Proof. intros H. induction n as [|n IH]; cbn; [|rewrite H, IH]; reflexivity. Qed.

Lemma firstn_repeat_S (f : byte) (n : nat) :
  firstn n (repeat f (S n)) = repeat f n.
Proof. induction n as [|n IH]; [reflexivity|]. cbn [repeat firstn] in *. rewrite IH. reflexivity. Qed.

Lemma string_of_list_length (l : list byte) :
  len (string_of_list_ascii l) = len_bytes l.
Proof.
  unfold len, len_bytes. induction l as [|c l IH]; [reflexivity|].
  cbn [string_of_list_ascii String.length List.length]. lia.
Qed.

(** A frame of plain and LF bytes that collects a non-empty text of at most
    510 bytes and ends in CR LF is returned without its LF bytes. *)
Lemma readLoop_frame (p rest : list byte) :
  forallb plain_or_LF p = true ->
  text_of p <> [] -> (len_bytes (text_of p) <= 510)%Z ->
  readLoop cl [] (p ++ CR :: LF :: rest) = ((string_of_list_ascii (text_of p), None), rest).
Proof.
  intros Hp Hne Hlen. rewrite readLoop_collect by assumption.
  cbn [app]. rewrite readLoop_CRLF.
  destruct (text_of p) as [|c t]; [congruence|]. reflexivity.
Qed.

Lemma readLoop_plain_frame (p rest : list byte) :
  forallb plain p = true -> p <> [] -> (len_bytes p <= 510)%Z ->
  readLoop cl [] (p ++ CR :: LF :: rest) = ((string_of_list_ascii p, None), rest).
Proof.
  intros Hp Hne Hlen. destruct (forallb_plain_text p Hp) as [Hp' Ht].
  pose proof (readLoop_frame p rest Hp') as H. rewrite Ht in H.
  apply H; assumption.
Qed.

(** The 511th plain byte of a frame: the reader resynchronises and reports
    the first 509 bytes. *)
Lemma readLoop_too_long (p rest : list byte) (c : byte) :
  forallb plain p = true -> List.length p = 510%nat -> plain c = true ->
  readLoop cl [] (p ++ c :: rest) =
  let '((n, _), rest') := junk cl rest in
  (("", Some (MsgTooLong (string_of_list_ascii (firstn 509 p)) (int_add n 1))), rest').
Proof.
  intros Hp Hlen Hc. destruct (forallb_plain_text p Hp) as [Hp' Ht].
  rewrite readLoop_collect; [|exact Hp'|].
  2:{ rewrite Ht. unfold len_bytes. cbn [app]. lia. }
  rewrite Ht. cbn [app]. rewrite (readLoop_plain _ _ _ Hc).
  change (MaxBytes - len delimiter)%Z with 510%Z.
  unfold len_bytes. rewrite Hlen. reflexivity.
Qed.

(** C6: reading "a\r\nb\r\n\r\nc\r\n" gives "a", then "b", then "c", then
    [io.EOF].  The empty frame between "b" and "c" gives neither a message
    nor an error: a CR LF read with nothing collected starts the read
    over. *)
Theorem readMsgData_skips_empty_frame :
  readMsgData (mkReader ["a"; CR; LF; "b"; CR; LF; CR; LF; "c"; CR; LF]%char io_EOF)
    = (("a", None), mkReader ["b"; CR; LF; CR; LF; "c"; CR; LF]%char io_EOF) /\
  readMsgData (mkReader ["b"; CR; LF; CR; LF; "c"; CR; LF]%char io_EOF)
    = (("b", None), mkReader [CR; LF; "c"; CR; LF]%char io_EOF) /\
  readMsgData (mkReader [CR; LF; "c"; CR; LF]%char io_EOF)
    = (("c", None), mkReader [] io_EOF) /\
  readMsgData (mkReader [] io_EOF) = (("", Some io_EOF), mkReader [] io_EOF) /\
  forall cl rest,
    readMsgData (mkReader (CR :: LF :: rest) cl) = readMsgData (mkReader rest cl).
Proof.
  repeat (split; [reflexivity|]). reflexivity.
Qed.

End Framing.

(** The cases of the package's own tests of the reader: whole streams read
    to their end, and streams that end a read with an error. *)
Example readMsgData_test_cases :
  readMsgData (mkReader ["a"; " "; CR; LF; "b"; "009"; CR; LF; CR; LF; "c"; CR; LF]%char io_EOF)
    = (("a ", None), mkReader ["b"; "009"; CR; LF; CR; LF; "c"; CR; LF]%char io_EOF) /\
  readMsgData (mkReader [] io_EOF) = (("", Some io_EOF), mkReader [] io_EOF) /\
  readMsgData (mkReader ["a"]%char io_EOF)
    = (("", Some (errorString "unexpected end of file in message stream")),
       mkReader [] io_EOF) /\
  readMsgData (mkReader ["a"; CR; CR; LF]%char io_EOF)
    = (("", Some (errorString "unexpected carrage return in message stream")),
       mkReader [LF] io_EOF) /\
  readMsgData (mkReader ["h"; "i"; NUL; CR; LF]%char io_EOF)
    = (("", Some (errorString "unexpected null in message stream")),
       mkReader [CR; LF] io_EOF).
Proof. repeat (split; [reflexivity|]). reflexivity. Qed.





Lemma repeat_511 (f : byte) : repeat f 511 = (repeat f 510 ++ [f])%list.
Proof. change 511%nat with (510 + 1)%nat. apply repeat_app. Qed.

Lemma firstn_509 (f : byte) : firstn 509 (repeat f 510) = repeat f 509.
Proof. apply firstn_repeat_S. Qed.

(** C2: the longest message and the first one that is too long.
    - 510 plain bytes and CR LF, 512 bytes in all, give one message of
      [MaxBytes - 2] bytes.
    - 511 plain bytes and a bare CR, 512 bytes in all, give a [MsgTooLong]
      error.  It is returned with the source read up to its end when no CR LF
      follows, and read up to and including the next CR LF otherwise; the
      next read then returns the well-formed message [next] that follows. *)
Theorem readMsgData_max_and_too_long
  (cl : error) (f : byte) (mid next rest : list byte)
  (Hf : plain f = true) (Hmid : hasCRLF CR mid = false)
  (Hnext : forallb plain next = true) (Hne : next <> [])
  (Hlen : (len_bytes next <= MaxBytes - 2)%Z) :
  (readMsgData (mkReader (repeat f 510 ++ [CR; LF]) cl)
     = ((string_of_list_ascii (repeat f 510), None), mkReader [] cl) /\
   len (string_of_list_ascii (repeat f 510)) = (MaxBytes - 2)%Z) /\
  (exists n,
     readMsgData (mkReader (repeat f 511 ++ [CR]) io_EOF)
       = (("", Some (MsgTooLong (string_of_list_ascii (repeat f 509)) n)),
          mkReader [] io_EOF)) /\
  (exists n,
     readMsgData (mkReader (repeat f 511 ++ CR :: mid) io_EOF)
       = (("", Some (MsgTooLong (string_of_list_ascii (repeat f 509)) n)),
          mkReader [] io_EOF)) /\
  (exists n,
     readMsgData
       (mkReader (repeat f 511 ++ CR :: mid ++ CR :: LF :: next ++ CR :: LF :: rest) cl)
       = (("", Some (MsgTooLong (string_of_list_ascii (repeat f 509)) n)),
          mkReader (next ++ CR :: LF :: rest) cl)) /\
  readMsgData (mkReader (next ++ CR :: LF :: rest) cl)
    = ((string_of_list_ascii next, None), mkReader rest cl).
Proof.
  change (MaxBytes - 2)%Z with 510%Z in *.
  assert (Hp : forallb plain (repeat f 510) = true) by (apply forallb_repeat, Hf).
  assert (Hlong : forall (cl' : error) (tail : list byte),
            readLoop cl' [] (repeat f 511 ++ tail) =
            let '((n, _), rest') := junk cl' tail in
            (("", Some (MsgTooLong (string_of_list_ascii (repeat f 509))
                                   (int_add n 1))), rest')).
  { intros cl' tail. rewrite repeat_511, <- app_assoc. cbn [app].
    rewrite (readLoop_too_long cl' (repeat f 510) tail f Hp (repeat_length f 510) Hf).
    rewrite firstn_509. reflexivity. }
  assert (Hend : forall tail, hasCRLF CR tail = false ->
            exists n, readMsgData (mkReader (repeat f 511 ++ CR :: tail) io_EOF)
              = (("", Some (MsgTooLong (string_of_list_ascii (repeat f 509)) n)),
                 mkReader [] io_EOF)).
  { intros tail Htail.
    destruct (junkLoop_end io_EOF (CR :: tail) NUL 0) as (k & Hk); [exact Htail|].
    exists (int_add k 1). apply readMsgData_eq. rewrite Hlong. unfold junk.
    rewrite Hk. reflexivity. }
  split; [split|split; [|split; [|split]]].
  - apply readMsgData_eq. apply readLoop_plain_frame.
    + exact Hp.
    + discriminate.
    + rewrite len_bytes_repeat. lia.
  - rewrite string_of_list_length, len_bytes_repeat. reflexivity.
  - apply Hend. reflexivity.
  - apply Hend, Hmid.
  - destruct (junkLoop_finds cl (CR :: mid) (next ++ CR :: LF :: rest) NUL 0)
      as (k & Hk); [exact Hmid|].
    exists (int_add k 1). apply readMsgData_eq. rewrite Hlong. unfold junk.
    cbn [app] in Hk. rewrite Hk. reflexivity.
  - apply readMsgData_eq. apply readLoop_plain_frame; assumption.
Qed.

Lemma readMsgData_max_and_too_long_witness :
  plain "a" = true /\ hasCRLF CR ["x"; "y"]%char = false /\
  forallb plain ["n"; "e"; "x"; "t"]%char = true /\
  (exists n,
     readMsgData
       (mkReader (repeat "a"%char 511
                  ++ [CR; "x"; "y"; CR; LF; "n"; "e"; "x"; "t"; CR; LF]%char)%list
                 io_EOF)
       = (("", Some (MsgTooLong (string_of_list_ascii (repeat "a"%char 509)) n)),
          mkReader ["n"; "e"; "x"; "t"; CR; LF]%char io_EOF)) /\
  readMsgData (mkReader ["n"; "e"; "x"; "t"; CR; LF]%char io_EOF)
    = (("next", None), mkReader [] io_EOF).
Proof.
  assert (H1 : plain "a" = true) by reflexivity.
  assert (H2 : hasCRLF CR ["x"; "y"]%char = false) by reflexivity.
  assert (H3 : forallb plain ["n"; "e"; "x"; "t"]%char = true) by reflexivity.
  assert (H4 : ["n"; "e"; "x"; "t"]%char <> []) by discriminate.
  assert (H5 : (len_bytes ["n"; "e"; "x"; "t"]%char <= MaxBytes - 2)%Z)
    by (vm_compute; discriminate).
  split; [exact H1|]. split; [exact H2|]. split; [exact H3|].
  destruct (readMsgData_max_and_too_long io_EOF "a"%char ["x"; "y"]%char
              ["n"; "e"; "x"; "t"]%char [] H1 H2 H3 H4 H5)
    as (_ & _ & _ & Hlong & Hnext).
  split; [exact Hlong|exact Hnext].
Defined.




(** ** [read] *)

Lemma string_of_list_nonempty (l : list byte) :
  l <> [] -> string_of_list_ascii l <> "".
Proof. destruct l; [congruence|discriminate]. Qed.

Lemma readLoop_result (cl : error) (pending : list byte) :
  (forall msg, read_result_ok cl (fst (readLoop cl msg pending))) /\
  (forall c msg, read_result_ok cl (fst (readLoop cl msg (c :: pending)))).
Proof.
  assert (Hnil : forall msg, read_result_ok cl (fst (readLoop cl msg []))).
  { intros msg. cbn [readLoop].
    destruct cl; try destruct (len_bytes msg >? 0)%Z; cbn; auto. }
  induction pending as [|a rest [IH1 IH2]].
  - split; [exact Hnil|]. intros c msg. cbn [readLoop].
    destruct (Ascii.eqb c NUL); [cbn; auto|].
    destruct (Ascii.eqb c LF); [apply Hnil|].
    destruct (Ascii.eqb c CR); [destruct cl; cbn; auto|].
    destruct (Z.geb_spec (len_bytes msg) (MaxBytes - len delimiter)) as [Hge|_];
      [|apply Hnil].
    cbn. split; [reflexivity|]. left. apply string_of_list_nonempty.
    intros H. apply (f_equal (@List.length byte)) in H.
    rewrite length_firstn in H. cbn in Hge, H. unfold len_bytes in Hge. lia.
  - split; [exact (IH2 a)|]. intros c msg. cbn [readLoop].
    destruct (Ascii.eqb c NUL); [cbn; auto|].
    destruct (Ascii.eqb c LF); [apply IH2|].
    destruct (Ascii.eqb c CR).
    + destruct (negb (Ascii.eqb a LF)); [cbn; auto|].
      destruct (Z.eqb_spec (len_bytes msg) 0) as [_|Hne]; [apply IH1|].
      cbn. apply string_of_list_nonempty. intros ->. apply Hne. reflexivity.
    + destruct (Z.geb_spec (len_bytes msg) (MaxBytes - len delimiter)) as [Hge|_];
        [|apply IH2].
      destruct (junk cl (a :: rest)) as [[n e] rest'].
      cbn. split; [reflexivity|]. left. apply string_of_list_nonempty.
      intros H. apply (f_equal (@List.length byte)) in H.
      rewrite length_firstn in H. cbn in Hge, H. unfold len_bytes in Hge. lia.
Qed.

(** X13: the reader never hands the empty string to [Parse].  On a source
    that ends or fails, [read] does not panic: it returns a message and an
    error value, however the bytes of the source are laid out. *)
Theorem read_never_panics (r : Reader) :
  (forall text n, closing r <> MsgTooLong text n) ->
  exists res r', read r = Ret (res, r').
Proof.
  intros Hcl. unfold read, readMsgData.
  pose proof (proj1 (readLoop_result (closing r) (pending r)) []) as Hok.
  destruct (readLoop (closing r) [] (pending r)) as [[data err] rest].
  cbn [fst] in Hok. unfold read_result_ok in Hok.
  destruct err as [e|].
  - destruct Hok as [_ Hok]. destruct e as [|t|text n|t]; eauto.
    destruct Hok as [Htext|Heq]; [|exfalso; eapply Hcl; symmetry; exact Heq].
    destruct text as [|c text]; [congruence|].
    destruct (Parse_returns c text) as (m & -> & _). cbn [bind]. eauto.
  - destruct data as [|c data]; [congruence|].
    destruct (Parse_returns c data) as (m & -> & _). cbn [bind]. eauto.
Qed.

(** * Further properties *)

(** ** What every read returns *)

Lemma read_post_cons (c : byte) (pending : list byte)
  (res : (string * option error) * list byte) :
  read_post pending res -> read_post (c :: pending) res.
Proof.
  intros [(used & Hused) Hres]. split; [|exact Hres].
  exists (c :: used). rewrite Hused. reflexivity.
Qed.

Lemma junkLoop_suffix (cl : error) (p : list byte) (last : byte) (n : Z) :
  exists used, p = (used ++ snd (junkLoop cl last n p))%list.
Proof.
  revert last n; induction p as [|c p IH]; intros last n.
  - exists []. reflexivity.
  - cbn [junkLoop].
    destruct (Ascii.eqb last (delimiter_at 0) && Ascii.eqb c (delimiter_at 1)).
    + exists [c]. reflexivity.
    + destruct (IH c (int_add n 1)) as (used & Hused).
      exists (c :: used). cbn [app]. rewrite <- Hused. reflexivity.
Qed.

Lemma plain_intro (c : byte) :
  Ascii.eqb c NUL = false -> Ascii.eqb c LF = false -> Ascii.eqb c CR = false ->
  plain c = true.
Proof. unfold plain. intros -> -> ->. reflexivity. Qed.

Lemma forallb_plain_snoc (msg : list byte) (c : byte) :
  forallb plain msg = true -> plain c = true -> forallb plain (msg ++ [c]) = true.
Proof.
  intros Hm Hc. rewrite forallb_app, Hm. cbn. rewrite Hc. reflexivity.
Qed.

Section ReadInvariant.

Variable cl : error.

Lemma readLoop_post_step (pending : list byte) :
  (forall msg, collected msg -> read_post pending (readLoop cl msg pending)) ->
  (forall msg, collected msg ->
     match pending with
     | [] => True
     | _ :: rest => read_post rest (readLoop cl msg rest)
     end) ->
  forall c msg, collected msg ->
    read_post (c :: pending) (readLoop cl msg (c :: pending)).
Proof.
  intros H1 H2 c msg Hmsg. cbn [readLoop].
  destruct (Ascii.eqb c NUL) eqn:Hnul.
  { split; [exists [c]; reflexivity|reflexivity]. }
  destruct (Ascii.eqb c LF) eqn:Hlf.
  { apply read_post_cons, H1, Hmsg. }
  destruct (Ascii.eqb c CR) eqn:Hcr.
  { destruct pending as [|a rest].
    - split; [exists [c]; reflexivity|reflexivity].
    - destruct (negb (Ascii.eqb a LF)).
      + split; [exists [c; a]; reflexivity|reflexivity].
      + destruct (Z.eqb_spec (len_bytes msg) 0) as [_|Hne].
        * apply read_post_cons, read_post_cons. apply (H2 msg Hmsg).
        * split; [exists [c; a]; reflexivity|].
          cbn [fst snd]. exists msg. destruct Hmsg as [Hp Hl].
          repeat split; try assumption.
          intros ->. apply Hne. reflexivity. }
  destruct (Z.geb_spec (len_bytes msg) (MaxBytes - len delimiter)) as [Hge|Hlt].
  - destruct (junkLoop_suffix cl pending NUL 0) as (used & Hused).
    unfold junk. destruct (junkLoop cl NUL 0 pending) as [[n e] rest'].
    cbn [snd] in Hused.
    split; [exists (c :: used); cbn [snd app]; rewrite <- Hused; reflexivity|].
    reflexivity.
  - apply read_post_cons, H1. destruct Hmsg as [Hp Hl]. split.
    + apply forallb_plain_snoc; [exact Hp|apply plain_intro; assumption].
    + change (MaxBytes - len delimiter)%Z with 510%Z in Hlt.
      unfold len_bytes in *. rewrite length_app. cbn [List.length]. lia.
Qed.

Lemma readLoop_post (pending : list byte) :
  (forall msg, collected msg -> read_post pending (readLoop cl msg pending)) /\
  (forall c msg, collected msg ->
     read_post (c :: pending) (readLoop cl msg (c :: pending))).
Proof.
  assert (Hnil : forall msg, collected msg -> read_post [] (readLoop cl msg [])).
  { intros msg _. cbn [readLoop].
    destruct cl; try destruct (len_bytes msg >? 0)%Z;
      (split; [exists []; reflexivity|reflexivity]). }
  induction pending as [|a rest [IH1 IH2]].
  - split; [exact Hnil|]. apply readLoop_post_step; [exact Hnil|trivial].
  - split; [exact (IH2 a)|].
    apply readLoop_post_step; [exact (IH2 a)|exact IH1].
Qed.

End ReadInvariant.

Lemma readMsgData_post (r : Reader) :
  read_post (pending r) (fst (readMsgData r), pending (snd (readMsgData r))) /\
  closing (snd (readMsgData r)) = closing r.
Proof.
  unfold readMsgData.
  pose proof (proj1 (readLoop_post (closing r) (pending r)) []) as H.
  destruct (readLoop (closing r) [] (pending r)) as [res rest].
  cbn [fst snd pending closing]. split; [|reflexivity].
  apply H. split; [reflexivity|]. cbn. lia.
Qed.

Lemma string_of_list_eq_nil (l : list byte) : string_of_list_ascii l = "" -> l = [].
Proof. destruct l; [reflexivity|discriminate]. Qed.

(** X1: whatever the source holds, a read that returns no error returns a
    text of 1 to 510 bytes, none of them NUL, LF or CR, and a read that
    returns an error returns the empty text.  The bytes left in the source
    are an end of those that were there, and what the source reports at its
    end is unchanged. *)
Theorem readMsgData_result (r r' : Reader) (data : string) (err : option error)
  (Hread : readMsgData r = ((data, err), r')) :
  closing r' = closing r /\
  (exists used, pending r = (used ++ pending r')%list) /\
  (err = None ->
     data <> "" /\ (len data <= MaxBytes - len delimiter)%Z /\
     forallb plain (list_ascii_of_string data) = true) /\
  (err <> None -> data = "").
Proof.
  destruct (readMsgData_post r) as [[Hused Hres] Hcl].
  rewrite Hread in *. cbn [fst snd] in *.
  split; [exact Hcl|]. split; [exact Hused|]. split.
  - intros ->. destruct Hres as (text & -> & Hne & Hplain & Hlen).
    split; [intros H; apply Hne, string_of_list_eq_nil, H|].
    split; [rewrite string_of_list_length; exact Hlen|].
    rewrite list_ascii_of_string_of_list_ascii. exact Hplain.
  - intros Herr. destruct err; [exact Hres|congruence].
Qed.

Lemma readMsgData_result_witness :
  readMsgData (mkReader ["h"; LF; "i"; CR; LF; "x"]%char io_EOF)
    = (("hi", None), mkReader ["x"]%char io_EOF) /\
  "hi" <> "" /\ (len "hi" <= MaxBytes - len delimiter)%Z /\
  forallb plain (list_ascii_of_string "hi") = true.
Proof.
  assert (H : readMsgData (mkReader ["h"; LF; "i"; CR; LF; "x"]%char io_EOF)
              = (("hi", None), mkReader ["x"]%char io_EOF)) by reflexivity.
  split; [exact H|].
  destruct (readMsgData_result _ _ _ _ H) as (_ & _ & Hok & _).
  exact (Hok eq_refl).
Defined.

(** ** [junk] *)

Lemma junkLoop_end_count (cl : error) (q : list byte) (last : byte) (n : Z) :
  hasCRLF last q = false ->
  (0 <= n)%Z -> (n + len_bytes q <= int_max)%Z ->
  junkLoop cl last n q = ((n + len_bytes q, Some cl), [])%Z.
Proof.
  unfold len_bytes.
  revert last n; induction q as [|c q IH]; intros last n Hq Hn Hmax.
  - cbn. rewrite Z.add_0_r. reflexivity.
  - cbn [hasCRLF] in Hq. apply orb_false_iff in Hq as [Hc Hq].
    cbn [junkLoop]. change (delimiter_at 0) with CR. change (delimiter_at 1) with LF.
    rewrite Hc. cbn [List.length] in *.
    change int_max with 9223372036854775807%Z in Hmax.
    assert (H1 : int_add n 1 = (n + 1)%Z).
    { apply int_add_small. change int_min with (-9223372036854775808)%Z.
      change int_max with 9223372036854775807%Z. lia. }
    rewrite H1, IH; [|exact Hq|lia|change int_max with 9223372036854775807%Z; lia].
    replace (n + 1 + Z.of_nat (List.length q))%Z
      with (n + Z.of_nat (S (List.length q)))%Z by lia.
    reflexivity.
Qed.

(** X2: [junk] on bytes [q] that hold no CR LF.  When CR LF follows them,
    [junk] returns one more than the number of bytes of [q], with a nil
    error, and leaves the source right after that CR LF.  When the source
    ends after them, [junk] returns the number of bytes of [q] and what the
    source reports at its end, and leaves the source empty. *)
Theorem junk_resynchronises (cl : error) (q next : list byte)
  (Hq : hasCRLF NUL q = false) (Hsmall : (len_bytes q + 2 <= int_max)%Z) :
  junk cl (q ++ CR :: LF :: next) = ((len_bytes q + 1, None), next)%Z /\
  junk cl q = ((len_bytes q, Some cl), []).
Proof.
  unfold junk. split.
  - rewrite junkLoop_count; [reflexivity|exact Hq|lia|lia].
  - rewrite junkLoop_end_count; [reflexivity|exact Hq|lia|lia].
Qed.

Lemma junk_resynchronises_witness :
  junk io_EOF ["x"; CR; "y"; CR; LF; "z"]%char = ((4, None), ["z"]%char)%Z /\
  junk io_EOF ["x"; CR; "y"]%char = ((3, Some io_EOF), [])%Z.
Proof.
  assert (H1 : hasCRLF NUL ["x"; CR; "y"]%char = false) by reflexivity.
  assert (H2 : (len_bytes ["x"; CR; "y"]%char + 2 <= int_max)%Z)
    by (vm_compute; discriminate).
  exact (junk_resynchronises io_EOF ["x"; CR; "y"]%char ["z"]%char H1 H2).
Defined.

(** ** A source that fails *)

(** X3: a failure of the byte source.  Met where the loop reads the next
    byte of a message or the byte after a CR, it is returned as it is, with
    the empty text, whatever has been collected.  Met while [junk] discards
    the rest of a frame that is too long, it is dropped: the read returns
    [MsgTooLong], whose count is then one more than the number of bytes
    discarded. *)
Theorem source_failure_propagates
  (t : string) (msg p big q : list byte) (c : byte)
  (Hp : forallb plain_or_LF p = true) (Hlen : (len_bytes (text_of p) <= 510)%Z)
  (Hbig : forallb plain big = true) (Hbig510 : List.length big = 510%nat)
  (Hc : plain c = true)
  (Hq : hasCRLF NUL q = false) (Hsmall : (len_bytes q + 2 <= int_max)%Z) :
  readLoop (sourceFailure t) msg [] = (("", Some (sourceFailure t)), []) /\
  readLoop (sourceFailure t) msg [CR] = (("", Some (sourceFailure t)), []) /\
  readMsgData (mkReader p (sourceFailure t))
    = (("", Some (sourceFailure t)), mkReader [] (sourceFailure t)) /\
  readMsgData (mkReader (p ++ [CR]) (sourceFailure t))
    = (("", Some (sourceFailure t)), mkReader [] (sourceFailure t)) /\
  readMsgData (mkReader (big ++ c :: q) (sourceFailure t))
    = (("", Some (MsgTooLong (string_of_list_ascii (firstn 509 big))
                             (len_bytes q + 1))),
       mkReader [] (sourceFailure t)).
Proof.
  split; [reflexivity|]. split; [reflexivity|]. split; [|split].
  - apply readMsgData_eq. rewrite <- (app_nil_r p) at 1.
    rewrite readLoop_collect by assumption. reflexivity.
  - apply readMsgData_eq. rewrite readLoop_collect by assumption. reflexivity.
  - apply readMsgData_eq.
    rewrite (readLoop_too_long _ _ _ _ Hbig Hbig510 Hc).
    unfold junk. rewrite junkLoop_end_count; [|exact Hq|lia|lia].
    rewrite int_add_small; [reflexivity|].
    change int_min with (-9223372036854775808)%Z.
    change int_max with 9223372036854775807%Z in *.
    unfold len_bytes in *. lia.
Qed.

Lemma source_failure_propagates_witness :
  readMsgData (mkReader ["a"; LF; "b"]%char (sourceFailure "reset"))
    = (("", Some (sourceFailure "reset")), mkReader [] (sourceFailure "reset")) /\
  readMsgData (mkReader (repeat "a"%char 510 ++ ["b"; "x"; "y"]%char)%list
                        (sourceFailure "reset"))
    = (("", Some (MsgTooLong (string_of_list_ascii (repeat "a"%char 509)) 3)),
       mkReader [] (sourceFailure "reset")).
Proof.
  assert (H1 : forallb plain_or_LF ["a"; LF; "b"]%char = true) by reflexivity.
  assert (H2 : (len_bytes (text_of ["a"; LF; "b"]%char) <= 510)%Z)
    by (vm_compute; discriminate).
  assert (H3 : forallb plain (repeat "a"%char 510) = true) by reflexivity.
  assert (H4 : List.length (repeat "a"%char 510) = 510%nat) by reflexivity.
  assert (H5 : plain "b" = true) by reflexivity.
  assert (H6 : hasCRLF NUL ["x"; "y"]%char = false) by reflexivity.
  assert (H7 : (len_bytes ["x"; "y"]%char + 2 <= int_max)%Z)
    by (vm_compute; discriminate).
  destruct (source_failure_propagates "reset" [] ["a"; LF; "b"]%char
              (repeat "a"%char 510) ["x"; "y"]%char "b"%char
              H1 H2 H3 H4 H5 H6 H7) as (_ & _ & Ha & _ & Hb).
  split; [exact Ha|exact Hb].
Defined.

(** ** A stream of frames *)

Lemma readAll_same (rounds : nat) (r1 r2 : Reader) :
  readMsgData r1 = readMsgData r2 -> readAll (S rounds) r1 = readAll (S rounds) r2.
Proof. intros H. cbn [readAll]. rewrite H. reflexivity. Qed.

Lemma fits_inv (text : list byte) :
  fits text = true -> forallb plain text = true /\ (len_bytes text <= 510)%Z.
Proof.
  unfold fits. intros H. apply andb_true_iff in H as [Hp Hl].
  split; [exact Hp|]. apply Z.leb_le in Hl. exact Hl.
Qed.

(** X4: framing round trip.  When texts that fit a frame are written one
    after the other, each followed by CR LF, a caller that reads until a
    read fails gets the texts that are not empty, in order and unchanged,
    and then [io.EOF]; an empty text, which puts two delimiters side by
    side, gives nothing. *)
Theorem readAll_wire (texts : list (list byte)) (rounds : nat)
  (Hfits : forallb fits texts = true) (Hrounds : (List.length texts < rounds)%nat) :
  readAll rounds (mkReader (wire texts) io_EOF)
  = (map string_of_list_ascii (filter (fun t => negb (is_nil t)) texts),
     Some io_EOF).
Proof.
  revert rounds Hrounds; induction texts as [|t ts IH]; intros rounds Hrounds.
  - destruct rounds as [|n]; [inversion Hrounds|]. reflexivity.
  - cbn [forallb] in Hfits. apply andb_true_iff in Hfits as [Ht Hts].
    destruct (fits_inv t Ht) as [Hp Hl].
    destruct rounds as [|n]; [inversion Hrounds|]. cbn [List.length] in Hrounds.
    unfold wire. cbn [map concat]. fold (wire ts). unfold frame.
    rewrite <- app_assoc. cbn [app filter].
    destruct t as [|c t].
    + cbn [app is_nil negb].
      rewrite (readAll_same n (mkReader (CR :: LF :: wire ts) io_EOF)
                 (mkReader (wire ts) io_EOF)) by reflexivity.
      apply (IH Hts). lia.
    + cbn [is_nil negb map]. cbn [readAll].
      rewrite (readMsgData_eq io_EOF _ (wire ts)
                 (string_of_list_ascii (c :: t), None)).
      * rewrite (IH Hts n) by lia. reflexivity.
      * apply (readLoop_plain_frame io_EOF (c :: t) (wire ts)); [exact Hp|discriminate|exact Hl].
Qed.

Lemma readAll_wire_witness :
  readAll 4 (mkReader (wire [["h"; "i"]; []; ["y"; "o"]]%char) io_EOF)
  = (["hi"; "yo"], Some io_EOF).
Proof.
  apply (readAll_wire [["h"; "i"]; []; ["y"; "o"]]%char 4).
  - reflexivity.
  - cbn. lia.
Defined.

(** ** [splitString] *)

Lemma prefix_nil (s : string) : String.prefix "" s = true.
Proof. destruct s; reflexivity. Qed.

Lemma cut_byte_cons (d c : byte) (s : string) :
  cut (String d "") (String c s) =
  if Ascii.eqb d c then Some ("", s)
  else match cut (String d "") s with
       | Some (h, t) => Some (String c h, t)
       | None => None
       end.
Proof.
  rewrite cut_unfold. cbn [String.prefix String.length drop].
  destruct (ascii_dec d c) as [->|Hne].
  - rewrite Ascii.eqb_refl, prefix_nil. reflexivity.
  - apply Ascii.eqb_neq in Hne. rewrite Hne. reflexivity.
Qed.

Lemma cut_byte_inv (d : byte) (s h t : string) :
  cut (String d "") s = Some (h, t) ->
  mem_byte d h = false /\ s = h ++ String d t.
Proof.
  revert h t; induction s as [|c s IH]; intros h t; [discriminate|].
  rewrite cut_byte_cons. destruct (Ascii.eqb d c) eqn:Hdc.
  - intros H; inversion H; subst. apply Ascii.eqb_eq in Hdc. subst c.
    split; reflexivity.
  - destruct (cut (String d "") s) as [[h' t']|]; [|discriminate].
    intros H; inversion H; subst. destruct (IH _ _ eq_refl) as [Hm Hs].
    cbn [mem_byte append]. rewrite Hdc, Hm, <- Hs. split; reflexivity.
Qed.

Lemma cut_byte_none (d : byte) (s : string) :
  cut (String d "") s = None -> mem_byte d s = false.
Proof.
  induction s as [|c s IH]; [reflexivity|].
  rewrite cut_byte_cons. destruct (Ascii.eqb d c) eqn:Hdc; [discriminate|].
  destruct (cut (String d "") s) as [[h' t']|]; [discriminate|].
  intros _. cbn [mem_byte]. rewrite Hdc, IH; reflexivity.
Qed.

(** [splitString] at a one-byte delimiter, in terms of [cut]. *)
Lemma splitString_byte (d : byte) (s : string) :
  splitString s (String d "") =
  Ret match cut (String d "") s with
      | Some (h, t) => (h, if Ascii.eqb d " " then TrimLeft t " " else t)
      | None => (s, "")
      end.
Proof.
  unfold splitString. cbn [SplitN].
  destruct (cut (String d "") s) as [[h t]|]; cbn.
  - destruct (Ascii.eqb_spec d " ") as [->|_]; reflexivity.
  - destruct (Ascii.eqb d " "); reflexivity.
Qed.

Lemma mem_byte_TrimLeft (x : byte) (t cutset : string) :
  mem_byte x t = false -> mem_byte x (TrimLeft t cutset) = false.
Proof.
  induction t as [|c t IH]; [reflexivity|].
  cbn [TrimLeft]. destruct (mem_byte c cutset); [|trivial].
  cbn [mem_byte]. intros H. apply orb_false_iff in H as [_ H]. apply IH, H.
Qed.

Lemma splitString_head_free (d : byte) (s head cons : string) :
  splitString s (String d "") = Ret (head, cons) -> mem_byte d head = false.
Proof.
  rewrite splitString_byte.
  destruct (cut (String d "") s) as [[h t]|] eqn:Hcut; intros H;
    inversion H; subst; clear H.
  - apply (cut_byte_inv _ _ _ _ Hcut).
  - apply cut_byte_none, Hcut.
Qed.

(** X5: [splitString] at a one-byte delimiter.  The head never holds the
    delimiter.  When the text does not hold it, the head is the whole text
    and nothing is left.  When it does, the text is the head, the delimiter
    and a tail, and what is left is that tail, without its leading spaces
    when the delimiter is the space. *)
Theorem splitString_at_byte (d : byte) (s head cons : string)
  (Hsplit : splitString s (String d "") = Ret (head, cons)) :
  mem_byte d head = false /\
  (mem_byte d s = false -> head = s /\ cons = "") /\
  (mem_byte d s = true ->
   exists tail, s = head ++ String d tail /\
                cons = if Ascii.eqb d " " then TrimLeft tail " " else tail).
Proof.
  rewrite splitString_byte in Hsplit.
  destruct (cut (String d "") s) as [[h t]|] eqn:Hcut; inversion Hsplit; subst; clear Hsplit.
  - destruct (cut_byte_inv _ _ _ _ Hcut) as [Hh Hs]. split; [exact Hh|]. split.
    + intros Hno. rewrite Hs, mem_byte_app in Hno. cbn [mem_byte] in Hno.
      rewrite Ascii.eqb_refl, orb_true_r in Hno. discriminate.
    + intros _. exists t. split; [exact Hs|reflexivity].
  - pose proof (cut_byte_none _ _ Hcut) as Hno. split; [exact Hno|]. split.
    + intros _. split; reflexivity.
    + intros Hyes. congruence.
Qed.

Lemma splitString_at_byte_witness :
  splitString "nick!u!v" "!" = Ret ("nick", "u!v") /\
  mem_byte "!" "nick" = false /\
  exists tail, "nick!u!v" = "nick" ++ String "!" tail /\ "u!v" = tail.
Proof.
  assert (H : splitString "nick!u!v" "!" = Ret ("nick", "u!v")) by reflexivity.
  split; [exact H|].
  destruct (splitString_at_byte "!" _ _ _ H) as (H1 & _ & H3).
  split; [exact H1|]. exact (H3 eq_refl).
Defined.

(** The two parts of a split hold no byte that the text does not hold. *)
Lemma splitString_parts (d x : byte) (s head cons : string) :
  splitString s (String d "") = Ret (head, cons) ->
  mem_byte x s = false ->
  mem_byte x head = false /\ mem_byte x cons = false.
Proof.
  rewrite splitString_byte.
  destruct (cut (String d "") s) as [[h t]|] eqn:Hcut; intros H Hx;
    inversion H; subst; clear H.
  - destruct (cut_byte_inv _ _ _ _ Hcut) as [_ Hs].
    rewrite Hs, mem_byte_app in Hx. cbn [mem_byte] in Hx.
    apply orb_false_iff in Hx as [Hh Ht]. apply orb_false_iff in Ht as [_ Ht].
    split; [exact Hh|]. destruct (Ascii.eqb d " "); [apply mem_byte_TrimLeft|]; exact Ht.
  - split; [exact Hx|reflexivity].
Qed.

Lemma splitString_head_start (d x : byte) (s head cons : string) :
  splitString s (String d "") = Ret (head, cons) ->
  nonempty head = true -> starts_with x head = starts_with x s.
Proof.
  rewrite splitString_byte.
  destruct (cut (String d "") s) as [[h t]|] eqn:Hcut; intros H Hne;
    inversion H; subst; clear H; [|reflexivity].
  destruct (cut_byte_inv _ _ _ _ Hcut) as [_ Hs]. rewrite Hs.
  symmetry. apply starts_with_app, Hne.
Qed.

(** ** The fields that [Parse] returns *)

Lemma argStep_token_inv (data arg data' : string) :
  argStep data = Ret (arg, data') ->
  starts_with " " data = false ->
  starts_with " " data' = false /\ (token arg = true \/ data' = "").
Proof.
  unfold argStep. destruct data as [|c data]; [discriminate|].
  cbn [byte_at String.get bind].
  destruct (Ascii.eqb c ":") eqn:Hcolon.
  - rewrite slice_from_1. cbn [bind]. intros H _. inversion H; subst. auto.
  - intros H Hc.
    destruct (splitString_space_head _ _ _ H eq_refl Hc) as [Hne Hsp].
    split; [exact Hsp|]. left. unfold token. rewrite Hne.
    rewrite (splitString_head_free " " _ _ _ H).
    rewrite (splitString_head_start " " ":" _ _ _ H Hne).
    cbn [starts_with]. rewrite Hcolon. reflexivity.
Qed.

(** Every argument that the loop adds, except the last, is a token. *)
Lemma argLoop_inner_tokens (data : string) (args out : list string) :
  starts_with " " data = false ->
  argLoop data args = Ret out ->
  exists new, out = (args ++ new)%list /\ inner_tokens new = true.
Proof.
  revert out. funelim (argLoop data args); intros out Hsp Hout.
  - inversion Hout; subst. exists []. rewrite app_nil_r. split; reflexivity.
  - destruct (argStep_token_inv _ _ _ Hstep Hsp) as [Hsp' Harg].
    destruct (H out Hsp' Hout) as (new & -> & Hnew).
    exists (arg :: new). rewrite <- app_assoc. split; [reflexivity|].
    destruct new as [|b new]; [reflexivity|].
    change (inner_tokens (arg :: b :: new))
      with (token arg && inner_tokens (b :: new)).
    rewrite Hnew, andb_true_r.
    destruct Harg as [Harg| ->]; [exact Harg|].
    rewrite argLoop_done in Hout. inversion Hout as [Heq].
    rewrite <- (app_nil_r (args ++ [arg])) in Heq at 1.
    apply app_inv_head in Heq. discriminate.
  - discriminate.
Qed.

Lemma Parse_fields_cons (c : byte) (rest : string) (m : Message) (e : option error) :
  Parse (String c rest) = Ret (m, e) ->
  e = None /\ Raw m = String c rest /\
  mem_byte " " (Origin m) = false /\ mem_byte "!" (Origin m) = false /\
  mem_byte " " (User m) = false /\ mem_byte "@" (User m) = false /\
  mem_byte " " (Host m) = false /\
  mem_byte " " (Command m) = false /\
  inner_tokens (Arguments m) = true /\
  (Ascii.eqb c ":" = false -> Origin m = "" /\ User m = "" /\ Host m = "").
Proof.
  unfold Parse. cbn [byte_at String.get bind].
  destruct (Ascii.eqb c ":") eqn:Hc.
  - rewrite slice_from_1. cbn [bind].
    destruct (splitString_returns rest " ") as (pre & d1 & E1). rewrite E1. cbn [bind].
    destruct (splitString_returns pre "!") as (o & r & E2). rewrite E2. cbn [bind].
    destruct (splitString_returns r "@") as (u & h & E3). rewrite E3. cbn [bind].
    destruct (splitString_returns d1 " ") as (cmd & d & E4). rewrite E4.
    cbn [bind Raw Origin User Host Command Arguments].
    destruct (argLoop d []) as [args|why] eqn:Ha; cbn [bind]; [|discriminate].
    intros H; inversion H; subst; clear H.
    cbn [Raw Origin User Host Command Arguments].
    pose proof (splitString_head_free " " _ _ _ E1) as Hpre.
    destruct (splitString_parts "!" " " _ _ _ E2 Hpre) as [Ho Hr].
    destruct (splitString_parts "@" " " _ _ _ E3 Hr) as [Hu Hh].
    destruct (argLoop_inner_tokens _ _ _ (splitString_space_cons _ _ _ E4) Ha)
      as (new & -> & Hnew).
    repeat split; try assumption; try discriminate.
    + apply (splitString_head_free "!" _ _ _ E2).
    + apply (splitString_head_free "@" _ _ _ E3).
    + apply (splitString_head_free " " _ _ _ E4).
  - cbn [bind].
    destruct (splitString_returns (String c rest) " ") as (cmd & d & E4). rewrite E4.
    cbn [bind Raw Origin User Host Command Arguments].
    destruct (argLoop d []) as [args|why] eqn:Ha; cbn [bind]; [|discriminate].
    intros H; inversion H; subst; clear H.
    cbn [Raw Origin User Host Command Arguments].
    destruct (argLoop_inner_tokens _ _ _ (splitString_space_cons _ _ _ E4) Ha)
      as (new & -> & Hnew).
    repeat split; try assumption; try reflexivity.
    apply (splitString_head_free " " _ _ _ E4).
Qed.

(** X6: the fields of every message that [Parse] returns.  The error is
    nil and [Raw] is the input.  The origin holds no space and no ['!'], the
    user no space and no ['@'], the host and the command no space.  Every
    argument but the last is a token: not empty, without a space, and not
    starting with [':'].  An input that does not start with [':'] gives an
    empty origin, user and host. *)
Theorem Parse_fields (data : string) (m : Message) (e : option error)
  (Hparse : Parse data = Ret (m, e)) :
  e = None /\ Raw m = data /\
  mem_byte " " (Origin m) = false /\ mem_byte "!" (Origin m) = false /\
  mem_byte " " (User m) = false /\ mem_byte "@" (User m) = false /\
  mem_byte " " (Host m) = false /\
  mem_byte " " (Command m) = false /\
  inner_tokens (Arguments m) = true /\
  (starts_with ":" data = false -> Origin m = "" /\ User m = "" /\ Host m = "").
Proof.
  destruct data as [|c rest]; [discriminate|].
  exact (Parse_fields_cons c rest m e Hparse).
Qed.

Lemma Parse_fields_witness :
  Parse "JOIN   #a  b c" = Ret (mkMessage "JOIN   #a  b c" "" "" "" "JOIN" ["#a"; "b"; "c"], None) /\
  mem_byte " " "JOIN" = false /\ inner_tokens ["#a"; "b"; "c"] = true.
Proof.
  assert (H : Parse "JOIN   #a  b c"
              = Ret (mkMessage "JOIN   #a  b c" "" "" "" "JOIN" ["#a"; "b"; "c"], None))
    by reflexivity.
  split; [exact H|].
  destruct (Parse_fields _ _ _ H) as (_ & _ & _ & _ & _ & _ & _ & Hc & Ha & _).
  split; [exact Hc|exact Ha].
Defined.

(** ** The prefix *)

(** After a prefix, the command and the arguments depend on the text after
    the first space only. *)
Lemma Parse_prefix_tail (tail : string) :
  exists cmd args, forall body,
    mem_byte " " body = false ->
    Parse (String ":" (body ++ String " " tail)) =
    (' (origin, rest) <- splitString body "!" ;;
     ' (user, host) <- splitString rest "@" ;;
     Ret (mkMessage (String ":" (body ++ String " " tail))
                    origin user host cmd args, None)).
Proof.
  destruct (splitString_returns (TrimLeft tail " ") " ") as (cmd & d & E).
  destruct (argLoop_returns d []) as (args & Ha).
  exists cmd, args. intros body Hbody. unfold Parse.
  cbn [byte_at String.get bind]. rewrite Ascii.eqb_refl, slice_from_1. cbn [bind].
  rewrite (splitString_found " " body tail Hbody).
  change (String.eqb " " " ") with true. cbv iota. cbn [bind].
  destruct (splitString_returns body "!") as (o & r & ->). cbn [bind].
  destruct (splitString_returns r "@") as (u & h & ->). cbn [bind].
  rewrite E. cbn [bind Arguments]. rewrite Ha. reflexivity.
Qed.

Lemma Parse_prefix_alone (body : string) :
  mem_byte " " body = false ->
  Parse (String ":" body) =
  (' (origin, rest) <- splitString body "!" ;;
   ' (user, host) <- splitString rest "@" ;;
   Ret (mkMessage (String ":" body) origin user host "" [], None)).
Proof.
  intros Hbody. unfold Parse.
  cbn [byte_at String.get bind]. rewrite Ascii.eqb_refl, slice_from_1. cbn [bind].
  rewrite (splitString_absent " " body Hbody). cbn [bind].
  destruct (splitString_returns body "!") as (o & r & ->). cbn [bind].
  destruct (splitString_returns r "@") as (u & h & ->). cbn [bind].
  change (splitString "" " ") with (@Ret (string * string) ("", "")).
  cbn [bind Arguments]. rewrite argLoop_done. reflexivity.
Qed.

(** X7: the three forms of a prefix.  For an origin without space and
    ['!'], a user without space and ['@'] and a host without space:
    [:origin] gives that origin with an empty user and host;
    [:origin!user] gives origin and user with an empty host;
    [:origin!user@host] gives all three.  The command and the arguments
    are the same in the three cases: they come from the text after the
    first space.  A prefix that ends the text gives an empty command and no
    argument. *)
Theorem Parse_prefix_forms (o u h tail : string)
  (Ho : mem_byte " " o = false) (Hbang : mem_byte "!" o = false)
  (Hu : mem_byte " " u = false) (Hat : mem_byte "@" u = false)
  (Hh : mem_byte " " h = false) :
  exists cmd args,
    Parse (String ":" (o ++ String " " tail))
      = Ret (mkMessage (String ":" (o ++ String " " tail)) o "" "" cmd args, None) /\
    Parse (String ":" ((o ++ String "!" u) ++ String " " tail))
      = Ret (mkMessage (String ":" ((o ++ String "!" u) ++ String " " tail))
                       o u "" cmd args, None) /\
    Parse (String ":" ((o ++ String "!" (u ++ String "@" h)) ++ String " " tail))
      = Ret (mkMessage
               (String ":" ((o ++ String "!" (u ++ String "@" h)) ++ String " " tail))
               o u h cmd args, None) /\
    Parse (String ":" (o ++ String "!" (u ++ String "@" h)))
      = Ret (mkMessage (String ":" (o ++ String "!" (u ++ String "@" h)))
                       o u h "" [], None).
Proof.
  destruct (Parse_prefix_tail tail) as (cmd & args & Hparse).
  exists cmd, args.
  assert (H1 : mem_byte " " (o ++ String "!" u) = false).
  { rewrite mem_byte_app. cbn [mem_byte]. rewrite Ho, Hu. reflexivity. }
  pose proof (prefix_no_space o u h Ho Hu Hh) as H2.
  split; [|split; [|split]].
  - rewrite (Hparse o Ho), (splitString_absent "!" o Hbang). reflexivity.
  - rewrite (Hparse _ H1), (splitString_found "!" o u Hbang). cbn [bind String.eqb Ascii.eqb Bool.eqb].
    cbv iota. rewrite (splitString_absent "@" u Hat). reflexivity.
  - rewrite (Hparse _ H2), (splitString_found "!" o _ Hbang). cbn [bind String.eqb Ascii.eqb Bool.eqb].
    cbv iota. rewrite (splitString_found "@" u h Hat). reflexivity.
  - rewrite (Parse_prefix_alone _ H2), (splitString_found "!" o _ Hbang).
    cbn [bind String.eqb Ascii.eqb Bool.eqb].
    cbv iota. rewrite (splitString_found "@" u h Hat). reflexivity.
Qed.

Lemma Parse_prefix_forms_witness :
  exists cmd args,
    Parse ":nick PRIVMSG #x :hi"
      = Ret (mkMessage ":nick PRIVMSG #x :hi" "nick" "" "" cmd args, None) /\
    Parse ":nick!u PRIVMSG #x :hi"
      = Ret (mkMessage ":nick!u PRIVMSG #x :hi" "nick" "u" "" cmd args, None) /\
    Parse ":nick!u@h PRIVMSG #x :hi"
      = Ret (mkMessage ":nick!u@h PRIVMSG #x :hi" "nick" "u" "h" cmd args, None) /\
    Parse ":nick!u@h" = Ret (mkMessage ":nick!u@h" "nick" "u" "h" "" [], None).
Proof.
  exact (Parse_prefix_forms "nick" "u" "h" "PRIVMSG #x :hi"
           eq_refl eq_refl eq_refl eq_refl eq_refl).
Defined.

(** ** What [RawString] returns *)

Lemma TrimRight_length (s cutset : string) :
  (String.length (TrimRight s cutset) <= String.length s)%nat.
Proof.
  induction s as [|c s IH]; [reflexivity|].
  cbn [TrimRight]. destruct (TrimRight s cutset) as [|x kept].
  - destruct (mem_byte c cutset); cbn [String.length]; lia.
  - cbn [String.length] in *. lia.
Qed.

Lemma TrimRight_end (s : string) : ends_with LF (TrimRight s newline) = false.
Proof.
  unfold ends_with. induction s as [|c s IH]; [reflexivity|].
  cbn [TrimRight]. destruct (TrimRight s newline) as [|x kept].
  - cbn [mem_byte newline]. rewrite orb_false_r.
    destruct (Ascii.eqb c LF) eqn:Hc; [reflexivity|].
    cbn [last_byte]. exact Hc.
  - rewrite last_byte_cons by reflexivity. exact IH.
Qed.

(** X8: a text that [RawString] returns with a nil error has 510 bytes at
    most, so that it fits [MaxBytes] with the delimiter, and does not end in
    a newline.  With an error, the text returned is empty and the error is a
    [MsgTooLong] that holds the candidate and a positive count. *)
Theorem RawString_returns (m : Message) (s : string) (err : option error)
  (Hraw : RawString m = (s, err)) :
  (err = None ->
     (len s <= MaxBytes - len delimiter)%Z /\
     (len (s ++ delimiter) <= MaxBytes)%Z /\
     ends_with LF s = false) /\
  (err <> None ->
     s = "" /\ exists excess, (0 < excess)%Z /\ err = Some (MsgTooLong (candidate m) excess)).
Proof.
  rewrite RawString_eq in Hraw.
  change (MaxBytes - len delimiter)%Z with 510%Z. change MaxBytes with 512%Z.
  destruct (Z.gtb_spec (len (candidate m)) 510) as [Hgt|Hle];
    inversion Hraw; subst; clear Hraw.
  - split; [discriminate|]. intros _. split; [reflexivity|].
    exists (len (candidate m) - 510)%Z. split; [lia|reflexivity].
  - split; [|congruence]. intros _.
    pose proof (TrimRight_length (candidate m) newline) as Hlen.
    unfold len in *. rewrite append_length. cbn [String.length delimiter].
    repeat split; try lia. apply TrimRight_end.
Qed.

Lemma RawString_returns_witness :
  RawString privmsg_newline = (":nick!u@h PRIVMSG #x :hello", None) /\
  (len ":nick!u@h PRIVMSG #x :hello" <= MaxBytes - len delimiter)%Z /\
  ends_with LF ":nick!u@h PRIVMSG #x :hello" = false.
Proof.
  assert (H : RawString privmsg_newline = (":nick!u@h PRIVMSG #x :hello", None))
    by reflexivity.
  split; [exact H|].
  destruct (RawString_returns _ _ _ H) as [Hok _].
  destruct (Hok eq_refl) as (H1 & _ & H3). split; [exact H1|exact H3].
Defined.

(** X9: the text that [RawString] builds from the fields when [Raw] is
    empty: the prefix [:origin] followed by a space, when the origin is not
    empty, with [!user@host] after the origin when the user is not empty;
    then the command; then every argument but the last after one space, and
    the last one after a space and [':'], whether it holds a space or not.
    A user without an origin and a host without a user are not written. *)
Theorem RawString_wire_format (m : Message) (Hraw : Raw m = "") :
  candidate m =
  (if nonempty (Origin m)
   then ":" ++ Origin m
        ++ (if nonempty (User m) then "!" ++ User m ++ "@" ++ Host m else "")
        ++ " "
   else "")
  ++ Command m ++ wireArgs (Arguments m).
Proof.
  unfold candidate. rewrite Hraw. cbn [nonempty]. rewrite buildRaw_shape.
  unfold prefixBody.
  destruct (nonempty (Origin m)), (nonempty (User m));
    repeat (rewrite append_assoc || (progress (cbn [append]))); reflexivity.
Qed.

Lemma RawString_wire_format_witness :
  candidate (mkMessage "" "nick" "u" "h" "MODE" ["#x"; "+o"; "bob"])
  = ":nick!u@h MODE #x +o :bob" /\
  candidate (mkMessage "" "" "u" "h" "MODE" ["#x"]) = "MODE :#x".
Proof.
  split.
  - exact (RawString_wire_format
             (mkMessage "" "nick" "u" "h" "MODE" ["#x"; "+o"; "bob"]) eq_refl).
  - exact (RawString_wire_format (mkMessage "" "" "u" "h" "MODE" ["#x"]) eq_refl).
Defined.

(** ** [Parse], then [RawString] *)

Lemma Parse_raw (data : string) (m : Message) (e : option error) :
  Parse data = Ret (m, e) -> Raw m = data /\ nonempty data = true.
Proof.
  destruct data as [|c rest]; [discriminate|]. intros H.
  destruct (Parse_fields_cons c rest m e H) as (_ & Hr & _).
  split; [exact Hr|reflexivity].
Qed.

Lemma RawString_of_raw (m : Message) :
  nonempty (Raw m) = true -> (len (Raw m) <= 510)%Z ->
  RawString m = (TrimRight (Raw m) newline, None).
Proof.
  intros Hne Hlen. rewrite RawString_eq. unfold candidate. rewrite Hne.
  destruct (Z.gtb_spec (len (Raw m)) 510) as [Hgt|_]; [lia|reflexivity].
Qed.

(** X10: a message that [Parse] made from a text of 510 bytes at most is
    written back by [RawString] as that text, without its trailing
    newlines: the fields play no part, so that runs of spaces and an empty
    command or prefix in the text are kept.  A longer text makes
    [RawString] fail. *)
Theorem RawString_after_Parse (data : string) (m : Message) (e : option error)
  (Hparse : Parse data = Ret (m, e)) :
  ((len data <= MaxBytes - len delimiter)%Z ->
     RawString m = (TrimRight data newline, None)) /\
  ((len data <= MaxBytes - len delimiter)%Z -> ends_with LF data = false ->
     RawString m = (data, None)) /\
  ((len data > MaxBytes - len delimiter)%Z ->
     RawString m = ("", Some (MsgTooLong data (len data - 510)))).
Proof.
  change (MaxBytes - len delimiter)%Z with 510%Z.
  destruct (Parse_raw _ _ _ Hparse) as [Hr Hne].
  assert (Htrim : (len data <= 510)%Z -> RawString m = (TrimRight data newline, None)).
  { intros Hlen. rewrite <- Hr in *. apply RawString_of_raw; assumption. }
  split; [exact Htrim|split].
  - intros Hlen Hend. rewrite (Htrim Hlen), (TrimRight_id data Hend). reflexivity.
  - intros Hlen. rewrite RawString_eq. unfold candidate. rewrite Hr, Hne.
    destruct (Z.gtb_spec (len data) 510) as [_|Hle]; [reflexivity|lia].
Qed.

Lemma RawString_after_Parse_witness :
  Parse "JOIN    #a   b  "
    = Ret (mkMessage "JOIN    #a   b  " "" "" "" "JOIN" ["#a"; "b"], None) /\
  RawString (mkMessage "JOIN    #a   b  " "" "" "" "JOIN" ["#a"; "b"])
    = ("JOIN    #a   b  ", None).
Proof.
  assert (H : Parse "JOIN    #a   b  "
              = Ret (mkMessage "JOIN    #a   b  " "" "" "" "JOIN" ["#a"; "b"], None))
    by reflexivity.
  split; [exact H|].
  destruct (RawString_after_Parse _ _ _ H) as (_ & Hsame & _).
  apply Hsame; [vm_compute; discriminate|reflexivity].
Defined.

(** ** [read]: the reader and the parser together *)

Lemma read_eq (r r' : Reader) (data : string) :
  readMsgData r = ((data, None), r') ->
  read r = (res <- Parse data ;; Ret (res, r')).
Proof. unfold read. intros ->. reflexivity. Qed.

Lemma read_too_long_eq (r r' : Reader) (data text : string) (n : Z) :
  readMsgData r = ((data, Some (MsgTooLong text n)), r') ->
  read r =
  (' (m, err') <- Parse text ;;
   match err' with
   | Some e => Ret ((zeroMessage, Some e), r')
   | None => Ret ((m, Some (MsgTooLong text n)), r')
   end).
Proof. unfold read. intros ->. reflexivity. Qed.

Lemma string_of_list_cons_nonempty (text : list byte) :
  text <> [] -> exists c rest, string_of_list_ascii text = String c rest.
Proof. destruct text as [|c t]; [congruence|]. intros _. cbn. eauto. Qed.

(** X11: [read] on a frame.  A text of 1 to 510 plain bytes followed by
    CR LF is returned as the message that [Parse] makes of it, with a nil
    error, and the source is left after the delimiter. *)
Theorem read_frame (cl : error) (text rest : list byte)
  (Hfits : fits text = true) (Hne : text <> []) :
  exists m,
    Parse (string_of_list_ascii text) = Ret (m, None) /\
    Raw m = string_of_list_ascii text /\
    read (mkReader (text ++ CR :: LF :: rest) cl) = Ret ((m, None), mkReader rest cl).
Proof.
  destruct (fits_inv text Hfits) as [Hp Hl].
  destruct (string_of_list_cons_nonempty text Hne) as (c & t & Htext).
  destruct (Parse_returns c t) as (m & Hparse & Hraw).
  exists m. rewrite Htext. split; [exact Hparse|]. split; [exact Hraw|].
  rewrite (read_eq _ (mkReader rest cl) (String c t)).
  - rewrite Hparse. reflexivity.
  - rewrite <- Htext. apply readMsgData_eq.
    apply readLoop_plain_frame; assumption.
Qed.

Lemma read_frame_witness :
  read (mkReader ["P"; "I"; "N"; "G"; " "; ":"; "s"; CR; LF; "x"]%char io_EOF)
  = Ret ((mkMessage "PING :s" "" "" "" "PING" ["s"], None), mkReader ["x"]%char io_EOF).
Proof.
  destruct (read_frame io_EOF ["P"; "I"; "N"; "G"; " "; ":"; "s"]%char ["x"]%char)
    as (m & Hparse & _ & Hread).
  - reflexivity.
  - discriminate.
  - cbn in Hparse. inversion Hparse; subst. exact Hread.
Defined.

(** X12: [read] on a frame that is too long.  When a 511th plain byte
    arrives, [read] returns the message that [Parse] makes of the first 509
    bytes, together with the [MsgTooLong] error that holds those bytes, and
    the source is left after the next CR LF. *)
Theorem read_too_long (cl : error) (big q next : list byte) (c : byte)
  (Hbig : forallb plain big = true) (Hbig510 : List.length big = 510%nat)
  (Hc : plain c = true)
  (Hq : hasCRLF NUL q = false) (Hsmall : (len_bytes q + 2 <= int_max)%Z) :
  exists m,
    Parse (string_of_list_ascii (firstn 509 big)) = Ret (m, None) /\
    read (mkReader (big ++ c :: q ++ CR :: LF :: next) cl)
    = Ret ((m, Some (MsgTooLong (string_of_list_ascii (firstn 509 big))
                                (len_bytes q + 2))),
           mkReader next cl).
Proof.
  assert (Hne : firstn 509 big <> []).
  { intros H. apply (f_equal (@List.length byte)) in H.
    rewrite length_firstn, Hbig510 in H. cbn in H. lia. }
  destruct (string_of_list_cons_nonempty _ Hne) as (x & t & Htext).
  destruct (Parse_returns x t) as (m & Hparse & _).
  exists m. rewrite Htext. split; [exact Hparse|].
  rewrite (read_too_long_eq _ (mkReader next cl) "" (String x t) (len_bytes q + 2)).
  - rewrite Hparse. reflexivity.
  - rewrite <- Htext. apply readMsgData_eq.
    rewrite (readLoop_too_long _ _ _ _ Hbig Hbig510 Hc).
    unfold junk. rewrite junkLoop_count; [|exact Hq|lia|lia].
    rewrite int_add_small.
    + replace (0 + len_bytes q + 1 + 1)%Z with (len_bytes q + 2)%Z by lia.
      reflexivity.
    + change int_min with (-9223372036854775808)%Z.
      change int_max with 9223372036854775807%Z in *.
      unfold len_bytes in *. lia.
Qed.

Lemma read_too_long_witness :
  exists m,
    Parse (string_of_list_ascii (firstn 509 (repeat "a"%char 510))) = Ret (m, None) /\
    read (mkReader (repeat "a"%char 510 ++ "b"%char :: ["x"]%char ++ CR :: LF :: ["y"]%char)
                   io_EOF)
    = Ret ((m, Some (MsgTooLong
                       (string_of_list_ascii (firstn 509 (repeat "a"%char 510)))
                       (len_bytes ["x"]%char + 2))),
           mkReader ["y"]%char io_EOF).
Proof.
  apply (read_too_long io_EOF (repeat "a"%char 510) ["x"]%char ["y"]%char "b"%char).
  - reflexivity.
  - reflexivity.
  - reflexivity.
  - reflexivity.
  - vm_compute. discriminate.
Defined.

Lemma read_never_panics_witness :
  exists res r', read (mkReader [CR; "a"]%char io_EOF) = Ret (res, r').
Proof.
  apply (read_never_panics (mkReader [CR; "a"]%char io_EOF)).
  intros text n. discriminate.
Defined.

Lemma plain_text_end (text : list byte) :
  forallb plain text = true -> ends_with LF (string_of_list_ascii text) = false.
Proof.
  unfold ends_with. induction text as [|c t IH]; [reflexivity|].
  cbn [forallb]. intros H. apply andb_true_iff in H as [Hc Ht].
  destruct t as [|d t].
  - cbn. apply (plain_inv c Hc).
  - cbn [string_of_list_ascii] in *. rewrite last_byte_cons by reflexivity.
    apply IH, Ht.
Qed.

(** X14: what [read] returns without an error can be sent back as it came.
    The message has a [Raw] of 1 to 510 bytes, and [RawString] returns that
    [Raw] unchanged with a nil error. *)
Theorem read_then_RawString (r r' : Reader) (m : Message)
  (Hread : read r = Ret ((m, None), r')) :
  Raw m <> "" /\ (len (Raw m) <= MaxBytes - len delimiter)%Z /\
  RawString m = (Raw m, None).
Proof.
  change (MaxBytes - len delimiter)%Z with 510%Z.
  unfold read in Hread. destruct (readMsgData_post r) as [[_ Hres] _].
  destruct (readMsgData r) as [[data err] r1]. cbn [fst snd] in Hres.
  destruct err as [e|].
  - destruct e as [|t|text n|t]; try discriminate.
    destruct (Parse text) as [[m' [e'|]]|why]; discriminate.
  - destruct Hres as (text & -> & Hne & Hplain & Hlen).
    destruct (Parse (string_of_list_ascii text)) as [[m' e']|why] eqn:Hparse;
      [|discriminate].
    cbn [bind] in Hread. inversion Hread; subst; clear Hread.
    destruct (Parse_raw _ _ _ Hparse) as [Hr Hnon].
    rewrite Hr. split; [|split].
    + intros H. apply Hne, string_of_list_eq_nil, H.
    + rewrite string_of_list_length. exact Hlen.
    + rewrite (RawString_of_raw m).
      * rewrite Hr, (TrimRight_id _ (plain_text_end text Hplain)). reflexivity.
      * rewrite Hr. exact Hnon.
      * rewrite Hr, string_of_list_length. exact Hlen.
Qed.

Lemma read_then_RawString_witness :
  read (mkReader ["J"; "O"; "I"; "N"; " "; " "; "#"; "x"; CR; LF]%char io_EOF)
    = Ret ((mkMessage "JOIN  #x" "" "" "" "JOIN" ["#x"], None), mkReader [] io_EOF) /\
  RawString (mkMessage "JOIN  #x" "" "" "" "JOIN" ["#x"]) = ("JOIN  #x", None).
Proof.
  assert (H : read (mkReader ["J"; "O"; "I"; "N"; " "; " "; "#"; "x"; CR; LF]%char io_EOF)
              = Ret ((mkMessage "JOIN  #x" "" "" "" "JOIN" ["#x"], None),
                     mkReader [] io_EOF)) by reflexivity.
  split; [exact H|].
  destruct (read_then_RawString _ _ _ H) as (_ & _ & Hsame). exact Hsame.
Defined.

(** X15: what [RawString] writes can be read back and written again.  When
    [RawString] returns a text that is not empty and holds plain bytes only,
    a reader that is given this text followed by CR LF returns, without an
    error, the message that [Parse] makes of the text and leaves the source
    after the delimiter; the [Raw] of that message is the text, and
    [RawString] returns the same text for it. *)
Theorem send_then_read (cl : error) (m : Message) (s : string) (rest : list byte)
  (Hsend : RawString m = (s, None)) (Hne : s <> "")
  (Hplain : forallb plain (list_ascii_of_string s) = true) :
  exists m',
    Parse s = Ret (m', None) /\
    read (mkReader (list_ascii_of_string s ++ CR :: LF :: rest) cl)
      = Ret ((m', None), mkReader rest cl) /\
    Raw m' = s /\ RawString m' = (s, None).
Proof.
  assert (Hlen : (len s <= 510)%Z).
  { rewrite RawString_eq in Hsend.
    destruct (Z.gtb_spec (len (candidate m)) 510) as [Hgt|Hle];
      inversion Hsend; subst.
    pose proof (TrimRight_length (candidate m) newline).
    unfold len in *. lia. }
  destruct s as [|c t]; [congruence|].
  destruct (Parse_returns c t) as (m' & Hparse & Hraw).
  exists m'. split; [exact Hparse|]. split; [|split; [exact Hraw|]].
  - rewrite (read_eq _ (mkReader rest cl) (String c t)).
    + rewrite Hparse. reflexivity.
    + apply readMsgData_eq.
      rewrite <- (string_of_list_ascii_of_string (String c t)) at 2.
      apply readLoop_plain_frame.
      * exact Hplain.
      * discriminate.
      * rewrite <- string_of_list_length, string_of_list_ascii_of_string. exact Hlen.
  - rewrite (RawString_of_raw m').
    + rewrite Hraw, TrimRight_id; [reflexivity|].
      rewrite <- (string_of_list_ascii_of_string (String c t)).
      apply plain_text_end, Hplain.
    + rewrite Hraw. reflexivity.
    + rewrite Hraw. exact Hlen.
Qed.

Lemma send_then_read_witness :
  exists m',
    Parse ":nick!u@h PRIVMSG #x :hello world" = Ret (m', None) /\
    read (mkReader (list_ascii_of_string ":nick!u@h PRIVMSG #x :hello world"
                    ++ CR :: LF :: []) io_EOF)
      = Ret ((m', None), mkReader [] io_EOF) /\
    Raw m' = ":nick!u@h PRIVMSG #x :hello world" /\
    RawString m' = (":nick!u@h PRIVMSG #x :hello world", None).
Proof.
  apply (send_then_read io_EOF privmsg ":nick!u@h PRIVMSG #x :hello world" []).
  - reflexivity.
  - discriminate.
  - reflexivity.
Defined.
